(** * Chunked, double-buffered back-projection engine
      (tomocupy/reconstruction/backproj_lamfourier_parallel.py)

    A shallow embedding of [BackprojLamFourierParallel]: the three chunk
    iterators ([usfft1d_chunks], [usfft2d_chunks], [fft2_chunks]), the
    filter/centre correction ([fbp_filter_center]), the fork-join helpers
    ([copy], [copyTransposed]) and the orchestrator ([rec_lam]).

    Conventions.
    - Python integers are [Z]; [%] is [Z.modulo] and [//] is [Z.div] (both
      floor, as in Python).
    - An n-dimensional array is a nested list along its axes; slicing follows
      Python's rules (negative bounds count from the end, bounds are clamped).
    - [cupy]'s [set]/[get] and [numpy]'s slice assignment raise on a shape
      mismatch: the corresponding operations return [None].
    - The GPU kernels are not part of the file that is modelled: they are
      section variables. *)

From Stdlib Require Import ZArith Lia Bool List.
From stdpp Require Import base list list_numbers.

Local Open Scope Z_scope.

(** ** Configuration ([__init__], lines 56-68) *)

Record cl_conf := {
  rh : Z;      (* cl_conf.rh *)
  n : Z;       (* cl_conf.n *)
  nz : Z;      (* cl_conf.nz *)
  nproj : Z;   (* cl_conf.nproj *)
  ncproj : Z;  (* cl_conf.ncproj *)
  ncz : Z      (* cl_conf.ncz *)
}.

Definition n0 (c : cl_conf) : Z := rh c.
Definition n1 (c : cl_conf) : Z := n c.
Definition n2 (c : cl_conf) : Z := n c.
Definition ntheta (c : cl_conf) : Z := nproj c.
Definition nthetac (c : cl_conf) : Z := ncproj c.
Definition detw (c : cl_conf) : Z := n c.
Definition deth (c : cl_conf) : Z := nz c.
Definition n1c (c : cl_conf) : Z := ncz c.
Definition dethc (c : cl_conf) : Z := ncz c.
Definition ne (c : cl_conf) : Z := 4 * detw c.

(** [int(np.ceil(a/b))] for integers [a] and [b]: the ceiling of the exact
    quotient (the rounding of the float division is not modelled). *)
Definition ceil_div (a b : Z) : Z :=
  if a mod b =? 0 then a / b else a / b + 1.

(** [range(m)] *)
Definition range (m : Z) : list Z := seqZ 0 m.

(** ** The pipeline schedule shared by the three chunk iterators

    The three loops (lines 143-160, 165-193, 197-224) have the same
    skeleton: for [k] in [range(nchunk+2)], a guarded compute block under
    [stream2], a guarded device-to-host block under [stream3], a guarded
    host-to-device block under [stream1], and the three [synchronize]
    calls.  [iter_step] records, in program order, what step [k] submits. *)

Inductive stream := Stream1 | Stream2 | Stream3.

(** Work submitted to a stream: the chunk it belongs to, the slot of the
    double-buffered device arrays it indexes, and for the copies the host
    range [st:end] with [s = end - st]. *)
Inductive work :=
| Compute (chunk slot : Z)
| Drain (chunk slot st en s : Z)
| Fill (chunk slot st en s : Z).

Inductive event :=
| Submit (q : stream) (w : work)
| Synchronize (q : stream).

Section Schedule.
Variables (L C : Z).   (* length of the driven axis, chunk size *)

Definition nchunk : Z := ceil_div L C.

Definition iter_step (k : Z) : list event :=
  (if (0 <? k) && (k <? nchunk + 1)
   then [Submit Stream2 (Compute (k - 1) ((k - 1) mod 2))] else [])
  ++ (if 1 <? k
      then let st := (k - 2) * C in
           let en := Z.min L ((k - 1) * C) in
           let s := en - st in
           [Submit Stream3 (Drain (k - 2) ((k - 2) mod 2) st en s)]
      else [])
  ++ (if k <? nchunk
      then let st := k * C in
           let en := Z.min L ((k + 1) * C) in
           let s := en - st in
           [Submit Stream1 (Fill k (k mod 2) st en s)]
      else [])
  ++ [Synchronize Stream1; Synchronize Stream2; Synchronize Stream3].

Definition iter_schedule : list (list event) :=
  map iter_step (range (nchunk + 2)).
End Schedule.

(** The three instances: the driven axis and its chunk size
    (lines 141, 164, 196). *)
Inductive iterator := Usfft1d | Usfft2d | Fft2.

Definition axis_length (c : cl_conf) (it : iterator) : Z :=
  match it with
  | Usfft1d => n1 c
  | Usfft2d => deth c / 2 + 1
  | Fft2 => ntheta c
  end.

Definition chunk_size (c : cl_conf) (it : iterator) : Z :=
  match it with
  | Usfft1d => n1c c
  | Usfft2d => dethc c
  | Fft2 => nthetac c
  end.

Definition schedule (c : cl_conf) (it : iterator) : list (list event) :=
  iter_schedule (axis_length c it) (chunk_size c it).

(** Pipeline phases of a chunk, read off an event. *)
Inductive phase := PFill | PCompute | PDrain.

Definition phase_eqb (p q : phase) : bool :=
  match p, q with
  | PFill, PFill | PCompute, PCompute | PDrain, PDrain => true
  | _, _ => false
  end.

Definition ev_phase (e : event) : option (phase * Z) :=
  match e with
  | Submit Stream1 (Fill c _ _ _ _) => Some (PFill, c)
  | Submit Stream2 (Compute c _) => Some (PCompute, c)
  | Submit Stream3 (Drain c _ _ _ _) => Some (PDrain, c)
  | _ => None
  end.

Definition is_phase (p : phase) (c : Z) (e : event) : bool :=
  match ev_phase e with
  | Some (q, d) => phase_eqb p q && (c =? d)
  | None => false
  end.

(** Number of times phase [p] of chunk [c] is submitted in a list of events. *)
Definition submissions (p : phase) (c : Z) (es : list event) : nat :=
  length (filter (fun e => is_phase p c e = true) es).

(** Sum of a list of counts. *)
Fixpoint total (l : list nat) : nat :=
  match l with
  | [] => 0%nat
  | x :: l' => (x + total l')%nat
  end.


(** ** Python indexing and slicing on one axis *)

Section Slices.
Context {A : Type}.

(** A slice bound [i] on an axis of length [len]: a negative bound counts
    from the end, and the result is clamped to [0, len]. *)
Definition slice_bound (len i : Z) : Z :=
  if i <? 0 then Z.max 0 (i + len) else Z.min i len.

Definition slice_start (len : Z) (a : option Z) : Z :=
  match a with Some i => slice_bound len i | None => 0 end.

Definition slice_stop (len : Z) (b : option Z) : Z :=
  match b with Some i => slice_bound len i | None => len end.

(** [l[a:b]]; an omitted bound is [None]. *)
Definition py_slice (a b : option Z) (l : list A) : list A :=
  let len := Z.of_nat (length l) in
  let lo := slice_start len a in
  let hi := slice_stop len b in
  take (Z.to_nat (hi - lo)) (drop (Z.to_nat lo) l).

(** [l[a:b] = v] on an array: the view [l[a:b]] and [v] must have the
    same extent (this is also [l[a:b].set(v)] and [v.get(out=l[a:b])]). *)
Definition py_set_slice (a b : option Z) (v l : list A) : option (list A) :=
  let len := Z.of_nat (length l) in
  let lo := slice_start len a in
  let hi := Z.max lo (slice_stop len b) in
  if Z.of_nat (length v) =? hi - lo
  then Some (take (Z.to_nat lo) l ++ v ++ drop (Z.to_nat hi) l)
  else None.

(** The position that index [i] denotes, when it is in range. *)
Definition index_pos (len i : Z) : option nat :=
  let j := if i <? 0 then i + len else i in
  if (0 <=? j) && (j <? len) then Some (Z.to_nat j) else None.

(** [l[i]] *)
Definition py_index (i : Z) (l : list A) : option A :=
  p ← index_pos (Z.of_nat (length l)) i; l !! p.

(** [l[i] = x] *)
Definition py_set_index (i : Z) (x : A) (l : list A) : option (list A) :=
  p ← index_pos (Z.of_nat (length l)) i; Some (<[p := x]> l).
End Slices.

(** Sequencing of fallible steps over a list (a [for] loop whose body may
    raise). *)
Fixpoint foldM {S E : Type} (f : S -> E -> option S) (es : list E) (σ : S)
  : option S :=
  match es with
  | [] => Some σ
  | e :: es' => σ' ← f σ e; foldM f es' σ'
  end.

(** Running a schedule: submitted work is executed, [synchronize] is a
    barrier and leaves the buffers as they are.  Work submitted in one step
    goes to three different streams; it is executed here in program order. *)
Section Run.
Context {S : Type} (exec : work -> S -> option S).

Definition run_event (σ : S) (e : event) : option S :=
  match e with
  | Submit _ w => exec w σ
  | Synchronize _ => Some σ
  end.

Definition run_step (σ : S) (es : list event) : option S :=
  foldM run_event es σ.

Definition run_schedule (steps : list (list event)) (σ : S) : option S :=
  foldM run_step steps σ.
End Run.

(** ** The iterators driven along the leading axis
       ([usfft1d_chunks], [fft2_chunks])

    An element of type [A] or [B] is one index of the driven axis: a whole
    plane of the array (the trailing axes, whose extents are fixed at
    construction, lines 106-116).  The host source is only read; the host
    destination and the two device arrays are written. *)

Record bufs (A B : Type) := Bufs {
  out_host : list B;          (* out / out_t *)
  out_gpu : list (list B);    (* out_gpu[2, C, ...] *)
  inp_gpu : list (list A)     (* inp_gpu[2, C, ...] *)
}.
Arguments Bufs {A B}.
Arguments out_host {A B}.
Arguments out_gpu {A B}.
Arguments inp_gpu {A B}.

Section LeadingAxis.
Context {A B : Type}.
Variable inp : list A.      (* inp / inp_t *)

(** [out_gpu[slot, :s].get(out=out[st:end])] (lines 150-152, 212-214) *)
Definition drain (slot st en s : Z) (σ : bufs A B) : option (bufs A B) :=
  src ← py_index slot (out_gpu σ);
  out' ← py_set_slice (Some st) (Some en) (py_slice None (Some s) src) (out_host σ);
  Some (Bufs out' (out_gpu σ) (inp_gpu σ)).

(** [inp_gpu[slot, :s].set(inp[st:end])] (lines 155-157, 218-220) *)
Definition fill (slot st en s : Z) (σ : bufs A B) : option (bufs A B) :=
  dst ← py_index slot (inp_gpu σ);
  dst' ← py_set_slice None (Some s) (py_slice (Some st) (Some en) inp) dst;
  ig' ← py_set_index slot dst' (inp_gpu σ);
  Some (Bufs (out_host σ) (out_gpu σ) ig').

(** [usfft1d_adj(out_gpu[slot], inp_gpu[slot], phi, stream2)] (line 147):
    the kernel reads one device slot and overwrites the other. *)
Variable usfft1d_adj : list A -> list B.

Definition usfft1d_compute (slot : Z) (σ : bufs A B) : option (bufs A B) :=
  src ← py_index slot (inp_gpu σ);
  og' ← py_set_index slot (usfft1d_adj src) (out_gpu σ);
  Some (Bufs (out_host σ) og' (inp_gpu σ)).

Definition usfft1d_exec (w : work) (σ : bufs A B) : option (bufs A B) :=
  match w with
  | Compute _ slot => usfft1d_compute slot σ
  | Drain _ slot st en s => drain slot st en s σ
  | Fill _ slot st en s => fill slot st en s σ
  end.

Definition usfft1d_chunks (c : cl_conf) (σ : bufs A B) : option (bufs A B) :=
  run_schedule usfft1d_exec (schedule c Usfft1d) σ.

(** [data0 = inp_gpu[slot]; data0 = fbp_filter_center(data0, zeros);
    fft2d_fwd(out_gpu[slot], data0, stream2)] (lines 200-209):
    [fbp_filter_center] overwrites its argument, the device source slot,
    and the forward FFT of the filtered slot goes to the destination
    slot.  [filter_center] is [fbp_filter_center] with the all-zero shift
    of line 202. *)
Variable filter_center : list A -> option (list A).
Variable fft2d_fwd : list A -> list B.

Definition fft2_compute (slot : Z) (σ : bufs A B) : option (bufs A B) :=
  data0 ← py_index slot (inp_gpu σ);
  data0' ← filter_center data0;
  ig' ← py_set_index slot data0' (inp_gpu σ);
  og' ← py_set_index slot (fft2d_fwd data0') (out_gpu σ);
  Some (Bufs (out_host σ) og' ig').

Definition fft2_exec (w : work) (σ : bufs A B) : option (bufs A B) :=
  match w with
  | Compute _ slot => fft2_compute slot σ
  | Drain _ slot st en s => drain slot st en s σ
  | Fill _ slot st en s => fill slot st en s σ
  end.

Definition fft2_chunks (c : cl_conf) (σ : bufs A B) : option (bufs A B) :=
  run_schedule fft2_exec (schedule c Fft2) σ.
End LeadingAxis.

(** ** Shapes of the buffers

    A double-buffered device array has two slots of [C] entries along the
    driven axis; the host destination has the whole axis. *)

Definition slots_ok {X : Type} (C : Z) (d : list (list X)) : Prop :=
  length d = 2%nat /\ Forall (fun s => Z.of_nat (length s) = C) d.

Definition shaped {A B : Type} (L C : Z) (σ : bufs A B) : Prop :=
  Z.of_nat (length (out_host σ)) = L
  /\ slots_ok C (out_gpu σ) /\ slots_ok C (inp_gpu σ).

(** Chunk [k] of an array of [L] entries, [l[k*C : min(L, (k+1)*C)]], and the
    concatenation of the per-chunk results of a transform [K]. *)
Definition chunk {X : Type} (L C k : Z) (l : list X) : list X :=
  py_slice (Some (k * C)) (Some (Z.min L ((k + 1) * C))) l.


(** ** The iterator driven along the second axis ([usfft2d_chunks])

    The arrays are indexed [row, frequency]: the host source
    [inp[ntheta, deth]], the host destination [out[n1, deth//2+1]], the
    device source [inp_gpu[2, 2*ntheta, dethc]] and the device destination
    [out_gpu[2, n1, dethc]]; an element of type [X] or [Y] is the trailing
    axis.  Rows [ntheta ..] of a device source slot hold the mirror
    frequencies (the "flipped part", line 183). *)

Record bufs2 (X Y : Type) := Bufs2 {
  out_host2 : list (list Y);
  out_gpu2 : list (list (list Y));
  inp_gpu2 : list (list (list X))
}.
Arguments Bufs2 {X Y}.
Arguments out_host2 {X Y}.
Arguments out_gpu2 {X Y}.
Arguments inp_gpu2 {X Y}.

(** [d[slot, j, a:b].set(v)] and [d[slot, j, i].set(x)] on a device array *)
Definition set_row_slice {X : Type} (slot j : Z) (a b : option Z) (v : list X)
    (d : list (list (list X))) : option (list (list (list X))) :=
  dev ← py_index slot d;
  row ← py_index j dev;
  row' ← py_set_slice a b v row;
  dev' ← py_set_index j row' dev;
  py_set_index slot dev' d.

Definition set_row_index {X : Type} (slot j i : Z) (x : X)
    (d : list (list (list X))) : option (list (list (list X))) :=
  dev ← py_index slot d;
  row ← py_index j dev;
  row' ← py_set_index i x row;
  dev' ← py_set_index j row' dev;
  py_set_index slot dev' d.

Section SecondAxis.
Context {X Y : Type}.
Variable c : cl_conf.
Variable inp : list (list X).

(** Body of the loop of lines 172-175:
    [out_gpu[slot,j,:s].get(out=out[j,st:end])] *)
Definition drain2_row (slot st en s : Z) (σ : bufs2 X Y) (j : Z)
  : option (bufs2 X Y) :=
  dev ← py_index slot (out_gpu2 σ);
  src ← py_index j dev;
  row ← py_index j (out_host2 σ);
  row' ← py_set_slice (Some st) (Some en) (py_slice None (Some s) src) row;
  out' ← py_set_index j row' (out_host2 σ);
  Some (Bufs2 out' (out_gpu2 σ) (inp_gpu2 σ)).

(** [for j in range(out.shape[0])] *)
Definition drain2 (slot st en s : Z) (σ : bufs2 X Y) : option (bufs2 X Y) :=
  foldM (drain2_row slot st en s) (range (Z.of_nat (length (out_host2 σ)))) σ.

(** Body of the loop of lines 181-188: the primary copy, then the
    flipped part, with the first chunk treated apart. *)
Definition fill2_row (k slot st en s : Z) (σ : bufs2 X Y) (j : Z)
  : option (bufs2 X Y) :=
  src ← py_index j inp;
  ig ← set_row_slice slot j None (Some s)
         (py_slice (Some st) (Some en) src) (inp_gpu2 σ);
  ig' ← (if k =? 0
         then
           ig1 ← set_row_slice slot (j + ntheta c) (Some (- s)) (Some (-1))
                   (py_slice (Some (deth c - en + 1)) (Some (deth c - st + 1)) src)
                   ig;
           x ← py_index 0 src;
           set_row_index slot (j + ntheta c) (-1) x ig1
         else
           set_row_slice slot (j + ntheta c) (Some (- s)) None
             (py_slice (Some (deth c - en + 1)) (Some (deth c - st + 1)) src)
             ig);
  Some (Bufs2 (out_host2 σ) (out_gpu2 σ) ig').

(** [for j in range(inp.shape[0])] *)
Definition fill2 (k slot st en s : Z) (σ : bufs2 X Y) : option (bufs2 X Y) :=
  foldM (fill2_row k slot st en s) (range (Z.of_nat (length inp))) σ.

(** [usfft2d_adj(out_gpu[slot], inp_gpu[slot], theta, phi, k-1, stream2)]
    (line 169): the kernel is told which chunk it works on. *)
Variable usfft2d_adj : Z -> list (list X) -> list (list Y).

Definition usfft2d_compute (chunk slot : Z) (σ : bufs2 X Y)
  : option (bufs2 X Y) :=
  src ← py_index slot (inp_gpu2 σ);
  og' ← py_set_index slot (usfft2d_adj chunk src) (out_gpu2 σ);
  Some (Bufs2 (out_host2 σ) og' (inp_gpu2 σ)).

Definition usfft2d_exec (w : work) (σ : bufs2 X Y) : option (bufs2 X Y) :=
  match w with
  | Compute chunk slot => usfft2d_compute chunk slot σ
  | Drain _ slot st en s => drain2 slot st en s σ
  | Fill k slot st en s => fill2 k slot st en s σ
  end.

Definition usfft2d_chunks (σ : bufs2 X Y) : option (bufs2 X Y) :=
  run_schedule usfft2d_exec (schedule c Usfft2d) σ.
End SecondAxis.

(** *** Specification of the second-axis stage *)

(** Column [i] of a two-dimensional array: [rows[:, i]]. *)
Definition column {X : Type} (i : Z) (rows : list (list X)) : option (list X) :=
  mapM (py_index i) rows.

(** A matrix of [r] rows and [w] columns. *)
Definition matrix {X : Type} (r w : Z) (m : list (list X)) : Prop :=
  Z.of_nat (length m) = r /\ Forall (fun row => Z.of_nat (length row) = w) m.

Definition shaped2 {X Y : Type} (c : cl_conf) (σ : bufs2 X Y) : Prop :=
  matrix (n1 c) (deth c / 2 + 1) (out_host2 σ)
  /\ length (out_gpu2 σ) = 2%nat
  /\ Forall (matrix (n1 c) (dethc c)) (out_gpu2 σ)
  /\ length (inp_gpu2 σ) = 2%nat
  /\ Forall (matrix (2 * ntheta c) (dethc c)) (inp_gpu2 σ).

Section SecondAxisSpec.
Context {X Y : Type}.
Variable c : cl_conf.

(** The transform of one frequency [m]: from the column of the source at
    [m] and the column at the mirror frequency, the column of the
    destination at [m] (one entry per row of the destination). *)
Variable g : Z -> list X -> list X -> list Y.

(** The mirror of frequency [m] on an axis of [deth] entries. *)
Definition mirror (m : Z) : Z := (deth c - m) mod deth c.

(** The kernel works frequency by frequency: position [i] of chunk [ch]
    is frequency [ch * dethc + i]; it reads column [i] of the primary rows
    and column [dethc - 1 - i] of the mirror rows of its source slot. *)
Definition frequencywise (kernel : Z -> list (list X) -> list (list Y)) : Prop :=
  forall ch slot,
    matrix (2 * ntheta c) (dethc c) slot ->
    matrix (n1 c) (dethc c) (kernel ch slot)
    /\ forall i P M,
         0 <= i < dethc c ->
         column i (take (Z.to_nat (ntheta c)) slot) = Some P ->
         column (dethc c - 1 - i) (drop (Z.to_nat (ntheta c)) slot) = Some M ->
         column i (kernel ch slot) = Some (g (ch * dethc c + i) P M).

End SecondAxisSpec.

(** A kernel that commutes with slicing along the driven axis: it keeps the
    extent of that axis and the transform of a slice is the slice of the
    transform. *)
Definition slicing_kernel {X Y : Type} (K : list X -> list Y) : Prop :=
  (forall l, length (K l) = length l)
  /\ (forall a b l, K (py_slice a b l) = py_slice a b (K l)).

(** ** What the work of one step does to the buffers

    For the stream a piece of work of step [k] is submitted to, the
    buffers after it in terms of the buffers before it: which slot of
    which device array it replaces, and what the new contents are computed
    from.  [T] is what the compute block leaves in the destination slot,
    [G] what it leaves in the source slot it was given. *)
Definition footprint {A B : Type} (inp : list A) (L C : Z)
    (T : list A -> list B) (G : list A -> list A)
    (q : stream) (k : Z) (σ σ' : bufs A B) : Prop :=
  match q with
  | Stream2 =>
      out_host σ' = out_host σ
      /\ exists src, inp_gpu σ !! Z.to_nat ((k - 1) mod 2) = Some src
           /\ out_gpu σ' = <[Z.to_nat ((k - 1) mod 2) := T src]> (out_gpu σ)
           /\ inp_gpu σ' = <[Z.to_nat ((k - 1) mod 2) := G src]> (inp_gpu σ)
  | Stream3 =>
      out_gpu σ' = out_gpu σ /\ inp_gpu σ' = inp_gpu σ
      /\ exists d, out_gpu σ !! Z.to_nat ((k - 2) mod 2) = Some d
           /\ out_host σ'
              = take (Z.to_nat ((k - 2) * C)) (out_host σ)
                ++ take (Z.to_nat (Z.min L ((k - 1) * C) - (k - 2) * C)) d
                ++ drop (Z.to_nat (Z.min L ((k - 1) * C))) (out_host σ)
  | Stream1 =>
      out_host σ' = out_host σ /\ out_gpu σ' = out_gpu σ
      /\ exists slot, inp_gpu σ !! Z.to_nat (k mod 2) = Some slot
           /\ inp_gpu σ'
              = <[Z.to_nat (k mod 2) :=
                    chunk L C k inp
                    ++ drop (Z.to_nat (Z.min L ((k + 1) * C) - k * C)) slot]>
                  (inp_gpu σ)
  end.
(** Linear arithmetic with [//] and [%] by constants. *)
Ltac divlia := Z.to_euclidean_division_equations; lia.

(** ** Facts about the chunk count and the schedule *)

Lemma ceil_div_spec (a b : Z) :
  0 < b -> (ceil_div a b - 1) * b < a <= ceil_div a b * b.
Proof.
  intros Hb. unfold ceil_div.
  pose proof (Z.div_mod a b ltac:(lia)) as Hdm.
  pose proof (Z.mod_pos_bound a b Hb) as Hm.
  destruct (Z.eqb_spec (a mod b) 0) as [E|E]; nia.
Qed.

Lemma ceil_div_nonneg (a b : Z) : 0 <= a -> 0 < b -> 0 <= ceil_div a b.
Proof. intros Ha Hb. pose proof (ceil_div_spec a b Hb). nia. Qed.

Lemma ceil_div_pos (a b : Z) : 0 < a -> 0 < b -> 0 < ceil_div a b.
Proof. intros Ha Hb. pose proof (ceil_div_spec a b Hb). nia. Qed.

Lemma range_lookup (m k : Z) :
  0 <= k < m -> range m !! Z.to_nat k = Some k.
Proof.
  intros Hk. unfold range.
  rewrite lookup_seqZ. split; [lia|]. lia.
Qed.

Lemma range_length (m : Z) : length (range m) = Z.to_nat m.
Proof. unfold range. apply length_seqZ. Qed.

Lemma In_range (m k : Z) : In k (range m) <-> 0 <= k < m.
Proof.
  unfold range. rewrite <- list_elem_of_In, elem_of_seqZ. lia.
Qed.

Lemma NoDup_range (m : Z) : List.NoDup (range m).
Proof. unfold range. apply NoDup_ListNoDup, NoDup_seqZ. Qed.

Lemma iter_schedule_length (L C : Z) :
  length (iter_schedule L C) = Z.to_nat (nchunk L C + 2).
Proof. unfold iter_schedule. rewrite length_map. apply range_length. Qed.

Lemma iter_schedule_lookup (L C k : Z) :
  0 <= k < nchunk L C + 2 ->
  iter_schedule L C !! Z.to_nat k = Some (iter_step L C k).
Proof.
  intros Hk. unfold iter_schedule.
  rewrite list_lookup_fmap, (range_lookup _ _ Hk). reflexivity.
Qed.

Lemma submissions_app p c es1 es2 :
  submissions p c (es1 ++ es2) = (submissions p c es1 + submissions p c es2)%nat.
Proof. unfold submissions. rewrite filter_app, length_app. reflexivity. Qed.

(** In which step each phase of chunk [c] is submitted. *)
Lemma submissions_step (L C c k : Z) :
  0 <= c < nchunk L C ->
  submissions PFill c (iter_step L C k) = (if k =? c then 1%nat else 0%nat)
  /\ submissions PCompute c (iter_step L C k) = (if k =? c + 1 then 1%nat else 0%nat)
  /\ submissions PDrain c (iter_step L C k) = (if k =? c + 2 then 1%nat else 0%nat).
Proof.
  intros Hc. unfold iter_step.
  destruct (Z.ltb_spec 0 k), (Z.ltb_spec k (nchunk L C + 1)),
    (Z.ltb_spec 1 k), (Z.ltb_spec k (nchunk L C));
    cbn [andb app]; unfold submissions, is_phase; cbn;
    repeat match goal with
      | |- context [decide ?P] => destruct (decide P)
      | H : context [?a =? ?b] |- _ => destruct (Z.eqb_spec a b)
      | |- context [?a =? ?b] => destruct (Z.eqb_spec a b)
      end; cbn; try lia; try (repeat split; (reflexivity || lia)).
Qed.

(** Summing an indicator over a duplicate-free list. *)
Lemma sum_over_steps (f : Z -> nat) (c : Z) (l : list Z) :
  List.NoDup l -> In c l -> (forall k, k <> c -> f k = 0%nat) ->
  total (map f l) = f c.
Proof.
  intros Hnd Hin Hz. induction l as [|x l IH]; [destruct Hin|].
  inversion Hnd as [|? ? Hx Hnd']; subst. cbn [map total].
  destruct Hin as [->|Hin].
  - assert (total (map f l) = 0%nat) as E.
    { clear IH Hnd Hnd'. induction l as [|y l IH]; [reflexivity|].
      cbn [map total].
      rewrite Hz by (intros ->; apply Hx; left; reflexivity).
      apply IH. intros Hc. apply Hx. right. exact Hc. }
    rewrite E. lia.
  - rewrite Hz by (intros ->; contradiction).
    apply IH; assumption.
Qed.

Lemma submissions_concat p c (steps : list (list event)) :
  submissions p c (concat steps) = total (map (submissions p c) steps).
Proof.
  induction steps as [|s steps IH]; [reflexivity|].
  cbn [concat map total]. rewrite submissions_app, IH. reflexivity.
Qed.

Lemma submissions_schedule (L C c : Z) (p : phase) :
  0 <= c < nchunk L C ->
  submissions p c (concat (iter_schedule L C)) = 1%nat.
Proof.
  intros Hc. rewrite submissions_concat. unfold iter_schedule.
  rewrite map_map.
  set (d := match p with PFill => 0 | PCompute => 1 | PDrain => 2 end).
  rewrite (sum_over_steps _ (c + d)).
  - pose proof (submissions_step L C c (c + d) Hc) as (Hf & Hc' & Hd).
    destruct p; subst d; cbn.
    + rewrite Hf. replace (c + 0 =? c) with true by lia. reflexivity.
    + rewrite Hc'. rewrite Z.eqb_refl. reflexivity.
    + rewrite Hd. rewrite Z.eqb_refl. reflexivity.
  - apply NoDup_range.
  - apply In_range. destruct p; subst d; lia.
  - intros k Hk. pose proof (submissions_step L C c k Hc) as (Hf & Hc' & Hd).
    destruct p; subst d.
    + rewrite Hf. destruct (Z.eqb_spec k c); [lia|reflexivity].
    + rewrite Hc'. destruct (Z.eqb_spec k (c + 1)); [lia|reflexivity].
    + rewrite Hd. destruct (Z.eqb_spec k (c + 2)); [lia|reflexivity].
Qed.

(** ** Slices with bounds in range *)

Section SliceFacts.
Context {A : Type}.
Implicit Types (l v : list A).

Lemma slice_bound_in_range (len i : Z) :
  0 <= i <= len -> slice_bound len i = i.
Proof. intros H. unfold slice_bound. destruct (Z.ltb_spec i 0); lia. Qed.

Lemma slice_bound_clamped (len i : Z) :
  0 <= len -> 0 <= slice_bound len i <= len.
Proof. intros H. unfold slice_bound. destruct (Z.ltb_spec i 0); lia. Qed.

Lemma py_slice_range l (st en : Z) :
  0 <= st <= en -> en <= Z.of_nat (length l) ->
  py_slice (Some st) (Some en) l
  = take (Z.to_nat (en - st)) (drop (Z.to_nat st) l).
Proof.
  intros H1 H2. unfold py_slice, slice_start, slice_stop.
  rewrite !slice_bound_in_range by lia. reflexivity.
Qed.

Lemma py_slice_prefix l (s : Z) :
  0 <= s -> py_slice None (Some s) l = take (Z.to_nat s) l.
Proof.
  intros H. unfold py_slice, slice_start, slice_stop, slice_bound.
  destruct (Z.ltb_spec s 0); [lia|]. rewrite drop_0, Z.sub_0_r.
  destruct (Z.le_gt_cases s (Z.of_nat (length l))).
  - rewrite Z.min_l by lia. reflexivity.
  - rewrite Z.min_r by lia. rewrite !take_ge by lia. reflexivity.
Qed.

Lemma py_slice_suffix l (st : Z) :
  0 <= st -> py_slice (Some st) None l = drop (Z.to_nat st) l.
Proof.
  intros H. unfold py_slice, slice_start, slice_stop, slice_bound.
  destruct (Z.ltb_spec st 0); [lia|].
  destruct (Z.le_gt_cases st (Z.of_nat (length l))).
  - rewrite Z.min_l by lia. apply take_ge. rewrite length_drop. lia.
  - rewrite Z.min_r by lia. rewrite !drop_ge by lia. apply take_nil.
Qed.

Lemma py_slice_length l (a b : option Z) :
  (length (py_slice a b l) <= length l)%nat.
Proof.
  unfold py_slice. rewrite length_take, length_drop. lia.
Qed.

Lemma py_slice_range_length l (st en : Z) :
  0 <= st <= en -> en <= Z.of_nat (length l) ->
  Z.of_nat (length (py_slice (Some st) (Some en) l)) = en - st.
Proof.
  intros H1 H2. rewrite py_slice_range by lia.
  rewrite length_take, length_drop. lia.
Qed.

Lemma py_set_slice_range l v (st en : Z) :
  0 <= st <= en -> en <= Z.of_nat (length l) ->
  Z.of_nat (length v) = en - st ->
  py_set_slice (Some st) (Some en) v l
  = Some (take (Z.to_nat st) l ++ v ++ drop (Z.to_nat en) l).
Proof.
  intros H1 H2 Hv. unfold py_set_slice, slice_start, slice_stop.
  rewrite !slice_bound_in_range by lia. rewrite Z.max_r by lia.
  destruct (Z.eqb_spec (Z.of_nat (length v)) (en - st)); [reflexivity|lia].
Qed.

Lemma py_set_slice_prefix l v (s : Z) :
  0 <= s <= Z.of_nat (length l) -> Z.of_nat (length v) = s ->
  py_set_slice None (Some s) v l = Some (v ++ drop (Z.to_nat s) l).
Proof.
  intros H Hv. unfold py_set_slice, slice_start, slice_stop.
  rewrite slice_bound_in_range by lia. rewrite Z.max_r by lia.
  rewrite Z.sub_0_r.
  destruct (Z.eqb_spec (Z.of_nat (length v)) s); [|lia].
  rewrite take_0. reflexivity.
Qed.

Lemma py_set_slice_length l v l' (a b : option Z) :
  py_set_slice a b v l = Some l' -> length l' = length l.
Proof.
  unfold py_set_slice. set (len := Z.of_nat (length l)).
  set (lo := slice_start len a). set (hi := Z.max lo (slice_stop len b)).
  assert (0 <= lo <= len /\ lo <= hi <= len) as Hb.
  { subst lo hi. assert (0 <= len) by (subst len; lia).
    assert (0 <= slice_start len a <= len)
      by (destruct a; cbn; [apply slice_bound_clamped|]; lia).
    assert (0 <= slice_stop len b <= len)
      by (destruct b; cbn; [apply slice_bound_clamped|]; lia).
    lia. }
  destruct (Z.eqb_spec (Z.of_nat (length v)) (hi - lo)); [|discriminate].
  intros [= <-]. rewrite !length_app, length_take, length_drop.
  subst len. lia.
Qed.

Lemma index_pos_in_range (len i : Z) :
  0 <= i < len -> index_pos len i = Some (Z.to_nat i).
Proof.
  intros H. unfold index_pos. destruct (Z.ltb_spec i 0); [lia|].
  destruct (Z.leb_spec 0 i), (Z.ltb_spec i len); try lia. reflexivity.
Qed.

Lemma index_pos_bound (len i : Z) (p : nat) :
  index_pos len i = Some p -> (Z.of_nat p < len)%Z.
Proof.
  unfold index_pos.
  destruct (Z.ltb_spec i 0), (Z.leb_spec 0 (i + len)), (Z.ltb_spec (i + len) len),
    (Z.leb_spec 0 i), (Z.ltb_spec i len); cbn; intros [= <-]; lia.
Qed.

Lemma py_index_in_range l (i : Z) :
  0 <= i < Z.of_nat (length l) -> py_index i l = l !! Z.to_nat i.
Proof.
  intros H. unfold py_index. rewrite index_pos_in_range by lia. reflexivity.
Qed.

Lemma py_set_index_in_range l (i : Z) (x : A) :
  0 <= i < Z.of_nat (length l) ->
  py_set_index i x l = Some (<[Z.to_nat i := x]> l).
Proof.
  intros H. unfold py_set_index. rewrite index_pos_in_range by lia. reflexivity.
Qed.

Lemma py_set_index_length l l' (i : Z) (x : A) :
  py_set_index i x l = Some l' -> length l' = length l.
Proof.
  unfold py_set_index. destruct (index_pos _ i); cbn; [|discriminate].
  intros [= <-]. apply length_insert.
Qed.
End SliceFacts.

Lemma foldM_app {S E : Type} (f : S -> E -> option S) (es1 es2 : list E) (σ : S) :
  foldM f (es1 ++ es2) σ = foldM f es1 σ ≫= foldM f es2.
Proof.
  revert σ. induction es1 as [|e es1 IH]; intros σ; cbn; [reflexivity|].
  destruct (f σ e); cbn; [apply IH|reflexivity].
Qed.

Lemma foldM_ext {S E : Type} (f g : S -> E -> option S) (es : list E) (σ : S) :
  (forall σ e, f σ e = g σ e) -> foldM f es σ = foldM g es σ.
Proof.
  intros Hfg. revert σ. induction es as [|e es IH]; intros σ; cbn; [reflexivity|].
  rewrite Hfg. destruct (g σ e); cbn; [apply IH|reflexivity].
Qed.

Lemma run_schedule_ext {S : Type} (f g : work -> S -> option S) steps (σ : S) :
  (forall w σ, f w σ = g w σ) -> run_schedule f steps σ = run_schedule g steps σ.
Proof.
  intros Hfg. unfold run_schedule. apply foldM_ext.
  intros σ' es. unfold run_step. apply foldM_ext.
  intros σ'' [q w|q]; cbn; [apply Hfg|reflexivity].
Qed.

(** Induction along the schedule: a family of invariants indexed by the
    step counter, established step by step, holds after the last step. *)
Section ScheduleInduction.
Context {St : Type} (exec : work -> St -> option St) (L C : Z).
Variable I : Z -> St -> Prop.
Hypothesis I_step : forall k σ,
  0 <= k < nchunk L C + 2 -> I k σ ->
  exists σ', run_step exec σ (iter_step L C k) = Some σ' /\ I (k + 1) σ'.

Lemma schedule_steps (m : nat) (k : Z) (σ : St) :
  0 <= k -> k + Z.of_nat m <= nchunk L C + 2 -> I k σ ->
  exists σ',
    run_schedule exec (map (iter_step L C) (seqZ k (Z.of_nat m))) σ = Some σ'
    /\ I (k + Z.of_nat m) σ'.
Proof.
  revert k σ. induction m as [|m IH]; intros k σ Hk Hm Hinv.
  - exists σ. split; [reflexivity|]. rewrite Z.add_0_r. exact Hinv.
  - rewrite seqZ_cons by lia. cbn [map].
    destruct (I_step k σ ltac:(lia) Hinv) as (σ1 & Hr1 & Hinv1).
    replace (Z.pred (Z.of_nat (S m))) with (Z.of_nat m) by lia.
    destruct (IH (Z.succ k) σ1 ltac:(lia) ltac:(lia)) as (σ' & Hr & Hinv').
    { replace (Z.succ k) with (k + 1) by lia. exact Hinv1. }
    exists σ'. split.
    + unfold run_schedule in *. cbn [foldM]. rewrite Hr1. cbn. exact Hr.
    + replace (k + Z.of_nat (S m)) with (Z.succ k + Z.of_nat m) by lia.
      exact Hinv'.
Qed.

Lemma take_range (m k : Z) :
  0 <= k <= m -> take (Z.to_nat k) (range m) = range k.
Proof.
  intros Hk. unfold range.
  replace m with (k + (m - k)) by lia.
  rewrite seqZ_app by lia. apply take_app_length'.
  rewrite length_seqZ. reflexivity.
Qed.

(** The run of the first [k] steps. *)
Lemma schedule_prefix (k : Z) (σ : St) :
  0 <= k <= nchunk L C + 2 -> I 0 σ ->
  exists σk,
    run_schedule exec (take (Z.to_nat k) (iter_schedule L C)) σ = Some σk
    /\ I k σk.
Proof.
  intros Hk H0. unfold iter_schedule.
  change (map (iter_step L C) (range (nchunk L C + 2)))
    with (iter_step L C <$> range (nchunk L C + 2)).
  rewrite <- fmap_take, take_range by lia. unfold range.
  destruct (schedule_steps (Z.to_nat k) 0 σ ltac:(lia) ltac:(lia) H0)
    as (σk & Hr & Hinv).
  rewrite Z2Nat.id in Hr, Hinv by lia.
  exists σk. split; [exact Hr|exact Hinv].
Qed.
End ScheduleInduction.


(** ** The pipeline along the leading axis

    One proof serves [usfft1d_chunks] and [fft2_chunks]: they differ in
    the compute block only, which is described here by what it leaves in
    the two device slots it indexes ([T] in the destination, [G] in the
    source). *)

Section Pipeline.
Context {A B : Type}.
Variables (inp : list A) (L C : Z).
Variable compute : Z -> bufs A B -> option (bufs A B).
Variables (T : list A -> list B) (G : list A -> list A).

Hypothesis inp_length : Z.of_nat (length inp) = L.
Hypothesis C_pos : 0 < C.
Hypothesis T_length : forall l, length (T l) = length l.
Hypothesis T_take : forall m l, T (take m l) = take m (T l).
Hypothesis T_drop : forall m l, T (drop m l) = drop m (T l).
Hypothesis G_length : forall l, length (G l) = length l.
Hypothesis compute_ok : forall slot σ src,
  0 <= slot < 2 ->
  length (out_gpu σ) = 2%nat -> length (inp_gpu σ) = 2%nat ->
  inp_gpu σ !! Z.to_nat slot = Some src ->
  compute slot σ
  = Some (Bufs (out_host σ) (<[Z.to_nat slot := T src]> (out_gpu σ))
               (<[Z.to_nat slot := G src]> (inp_gpu σ))).

Definition pipe_exec (w : work) (σ : bufs A B) : option (bufs A B) :=
  match w with
  | Compute _ slot => compute slot σ
  | Drain _ slot st en s => drain slot st en s σ
  | Fill _ slot st en s => fill inp slot st en s σ
  end.

Definition lo (k : Z) : Z := k * C.
Definition hi (k : Z) : Z := Z.min L ((k + 1) * C).

(** Chunk [k] of an array along the driven axis. *)
Definition chunk_of {X : Type} (k : Z) (l : list X) : list X :=
  take (Z.to_nat (hi k - lo k)) (drop (Z.to_nat (lo k)) l).

Definition filled (k : Z) (σ : bufs A B) : Prop :=
  exists slot, inp_gpu σ !! Z.to_nat (k mod 2) = Some slot
    /\ take (Z.to_nat (hi k - lo k)) slot = chunk_of k inp.

Definition computed (k : Z) (σ : bufs A B) : Prop :=
  exists slot, out_gpu σ !! Z.to_nat (k mod 2) = Some slot
    /\ take (Z.to_nat (hi k - lo k)) slot = chunk_of k (T inp).

Definition drained (k : Z) (σ : bufs A B) : Prop :=
  take (Z.to_nat (Z.min L (k * C))) (out_host σ)
  = take (Z.to_nat (Z.min L (k * C))) (T inp).

(** What holds before step [k]. *)
Definition pipe_inv (k : Z) (σ : bufs A B) : Prop :=
  shaped L C σ
  /\ (1 <= k <= nchunk L C -> filled (k - 1) σ)
  /\ (2 <= k <= nchunk L C + 1 -> computed (k - 2) σ)
  /\ (2 <= k -> drained (k - 2) σ).

Lemma chunk_bounds (k : Z) :
  0 <= k < nchunk L C -> 0 <= lo k < hi k /\ hi k <= L /\ hi k - lo k <= C.
Proof.
  intros Hk. pose proof (ceil_div_spec L C C_pos) as Hs.
  unfold nchunk in Hk. unfold lo, hi. nia.
Qed.

Lemma slots_ok_lookup {X : Type} (d : list (list X)) (k : Z) :
  slots_ok C d ->
  exists s, d !! Z.to_nat (k mod 2) = Some s /\ Z.of_nat (length s) = C.
Proof.
  intros [Hlen Hall].
  pose proof (Z.mod_pos_bound k 2 ltac:(lia)) as Hm.
  destruct (lookup_lt_is_Some_2 d (Z.to_nat (k mod 2)) ltac:(lia)) as [s Hs].
  exists s. split; [exact Hs|].
  rewrite Forall_lookup in Hall. exact (Hall _ _ Hs).
Qed.

Lemma slots_ok_insert {X : Type} (d : list (list X)) (i : nat) (s : list X) :
  slots_ok C d -> Z.of_nat (length s) = C -> slots_ok C (<[i := s]> d).
Proof.
  intros [Hlen Hall] Hs. split; [rewrite length_insert; exact Hlen|].
  apply Forall_insert; assumption.
Qed.

Lemma slot_neq (k : Z) : Z.to_nat ((k - 1) mod 2) <> Z.to_nat (k mod 2).
Proof.
  pose proof (Z.mod_pos_bound k 2 ltac:(lia)).
  pose proof (Z.mod_pos_bound (k - 1) 2 ltac:(lia)).
  pose proof (Z.div_mod k 2 ltac:(lia)).
  pose proof (Z.div_mod (k - 1) 2 ltac:(lia)). lia.
Qed.

(** The compute block of step [k]. *)
Lemma compute_step (k : Z) (σ : bufs A B) :
  1 <= k <= nchunk L C -> shaped L C σ -> filled (k - 1) σ ->
  exists σ', compute ((k - 1) mod 2) σ = Some σ'
    /\ shaped L C σ' /\ computed (k - 1) σ'
    /\ out_host σ' = out_host σ
    /\ (forall j, j <> Z.to_nat ((k - 1) mod 2) ->
          out_gpu σ' !! j = out_gpu σ !! j).
Proof.
  intros Hk (Hout & Hog & Hig) (slot & Hslot & Hfill).
  pose proof (Z.mod_pos_bound (k - 1) 2 ltac:(lia)) as Hm.
  destruct (chunk_bounds (k - 1) ltac:(lia)) as (Hlo & Hhi & Hsz).
  assert (Z.of_nat (length slot) = C) as Hsl.
  { destruct Hig as [_ Hall]. rewrite Forall_lookup in Hall.
    exact (Hall _ _ Hslot). }
  eexists. split; [apply compute_ok; try lia; [apply Hog|apply Hig|exact Hslot]|].
  cbn. split; [|split; [|split; [reflexivity|]]].
  - split; [exact Hout|]. split.
    + apply slots_ok_insert; [exact Hog|]. rewrite T_length. exact Hsl.
    + apply slots_ok_insert; [exact Hig|]. rewrite G_length. exact Hsl.
  - exists (T slot). split.
    + apply list_lookup_insert_eq. destruct Hog as [-> _]. lia.
    + rewrite <- T_take, Hfill. unfold chunk_of.
      rewrite T_take, T_drop. reflexivity.
  - intros j Hj. apply list_lookup_insert_ne. congruence.
Qed.

(** The device-to-host block of step [k]. *)
Lemma drain_step (k : Z) (σ : bufs A B) :
  2 <= k <= nchunk L C + 1 -> shaped L C σ -> computed (k - 2) σ ->
  drained (k - 2) σ ->
  exists σ',
    drain ((k - 2) mod 2) ((k - 2) * C) (Z.min L ((k - 1) * C))
          (Z.min L ((k - 1) * C) - (k - 2) * C) σ = Some σ'
    /\ shaped L C σ' /\ drained (k - 1) σ'
    /\ out_gpu σ' = out_gpu σ /\ inp_gpu σ' = inp_gpu σ.
Proof.
  intros Hk (Hout & Hog & Hig) (slot & Hslot & Hcomp) Hdr.
  pose proof (Z.mod_pos_bound (k - 2) 2 ltac:(lia)) as Hm.
  destruct (chunk_bounds (k - 2) ltac:(lia)) as (Hlo & Hhi & Hsz).
  unfold lo, hi in *. replace (k - 2 + 1) with (k - 1) in * by lia.
  set (st := (k - 2) * C) in *. set (en := Z.min L ((k - 1) * C)) in *.
  assert (Z.of_nat (length slot) = C) as Hsl.
  { destruct Hog as [_ Hall]. rewrite Forall_lookup in Hall.
    exact (Hall _ _ Hslot). }
  unfold drain. rewrite py_index_in_range by (destruct Hog as [-> _]; lia).
  rewrite Hslot. cbn. rewrite py_slice_prefix by lia.
  rewrite py_set_slice_range; [|lia|lia|rewrite length_take; lia].
  cbn. eexists. split; [reflexivity|]. cbn.
  split; [|split; [|split; reflexivity]].
  - split; [|split; assumption]. cbn.
    rewrite !length_app, length_take, length_take, length_drop. lia.
  - unfold drained in *. cbn.
    replace (Z.min L ((k - 2) * C)) with st in Hdr by lia.
    fold en. rewrite Hcomp. unfold chunk_of, lo, hi.
    replace (k - 2 + 1) with (k - 1) by lia. fold st en.
    rewrite app_assoc, Hdr.
    replace (Z.min L en) with en by lia.
    rewrite take_take_drop.
    rewrite take_app_le.
    2:{ rewrite length_take, T_length. lia. }
    rewrite take_take. f_equal. lia.
Qed.

(** The host-to-device block of step [k]. *)
Lemma fill_step (k : Z) (σ : bufs A B) :
  0 <= k < nchunk L C -> shaped L C σ ->
  exists σ',
    fill inp (k mod 2) (k * C) (Z.min L ((k + 1) * C))
         (Z.min L ((k + 1) * C) - k * C) σ = Some σ'
    /\ shaped L C σ' /\ filled k σ'
    /\ out_host σ' = out_host σ /\ out_gpu σ' = out_gpu σ.
Proof.
  intros Hk (Hout & Hog & Hig).
  pose proof (Z.mod_pos_bound k 2 ltac:(lia)) as Hm.
  destruct (chunk_bounds k Hk) as (Hlo & Hhi & Hsz).
  unfold lo, hi in *.
  set (st := k * C) in *. set (en := Z.min L ((k + 1) * C)) in *.
  destruct (slots_ok_lookup _ k Hig) as (slot & Hslot & Hsl).
  unfold fill. rewrite py_index_in_range by (destruct Hig as [-> _]; lia).
  rewrite Hslot. cbn.
  rewrite py_set_slice_prefix;
    [|lia|rewrite py_slice_range_length; lia].
  cbn. rewrite py_set_index_in_range by (destruct Hig as [-> _]; lia).
  cbn. eexists. split; [reflexivity|]. cbn.
  split; [|split; [|split; reflexivity]].
  - split; [exact Hout|]. split; [exact Hog|].
    apply slots_ok_insert; [exact Hig|].
    rewrite length_app, length_drop.
    pose proof (py_slice_range_length inp st en ltac:(lia) ltac:(lia)). lia.
  - eexists. split.
    + apply list_lookup_insert_eq. destruct Hig as [-> _]. lia.
    + unfold chunk_of, lo, hi. fold st en.
      rewrite py_slice_range by lia.
      rewrite take_app_length'; [reflexivity|].
      rewrite length_take, length_drop. lia.
Qed.

Lemma stage_compute (k : Z) (σ : bufs A B) :
  0 <= k -> pipe_inv k σ ->
  exists σ1,
    run_step pipe_exec σ
      (if (0 <? k) && (k <? nchunk L C + 1)
       then [Submit Stream2 (Compute (k - 1) ((k - 1) mod 2))] else [])
    = Some σ1
    /\ shaped L C σ1
    /\ (1 <= k <= nchunk L C -> computed (k - 1) σ1)
    /\ (2 <= k <= nchunk L C + 1 -> computed (k - 2) σ1)
    /\ (2 <= k -> drained (k - 2) σ1).
Proof.
  intros Hk (Hsh & Hfill & Hcomp & Hdr).
  destruct (Z.ltb_spec 0 k), (Z.ltb_spec k (nchunk L C + 1)); cbn [andb];
    try (exists σ; split; [reflexivity|];
         split; [exact Hsh|]; split; [lia|]; split; assumption).
  destruct (compute_step k σ ltac:(lia) Hsh (Hfill ltac:(lia)))
    as (σ1 & Hrun & Hsh1 & Hc1 & Hout & Hother).
  exists σ1. cbn. rewrite Hrun. cbn. split; [reflexivity|].
  split; [exact Hsh1|]. split; [intros _; exact Hc1|]. split.
  - intros Hk2. destruct (Hcomp Hk2) as (slot & Hslot & Hv).
    exists slot. split; [|exact Hv]. rewrite Hother; [exact Hslot|].
    pose proof (slot_neq (k - 1)) as Hne.
    replace (k - 1 - 1) with (k - 2) in Hne by lia. exact Hne.
  - intros Hk2. unfold drained. rewrite Hout. exact (Hdr Hk2).
Qed.

Lemma stage_drain (k : Z) (σ : bufs A B) :
  0 <= k < nchunk L C + 2 -> shaped L C σ ->
  (2 <= k <= nchunk L C + 1 -> computed (k - 2) σ) ->
  (2 <= k -> drained (k - 2) σ) ->
  exists σ2,
    run_step pipe_exec σ
      (if 1 <? k
       then let st := (k - 2) * C in
            let en := Z.min L ((k - 1) * C) in
            let s := en - st in
            [Submit Stream3 (Drain (k - 2) ((k - 2) mod 2) st en s)]
       else [])
    = Some σ2
    /\ shaped L C σ2 /\ (1 <= k -> drained (k - 1) σ2)
    /\ out_gpu σ2 = out_gpu σ /\ inp_gpu σ2 = inp_gpu σ.
Proof.
  intros Hk Hsh Hcomp Hdr. destruct (Z.ltb_spec 1 k).
  - destruct (drain_step k σ ltac:(lia) Hsh (Hcomp ltac:(lia)) (Hdr ltac:(lia)))
      as (σ2 & Hrun & Hsh2 & Hd2 & Hog & Hig).
    exists σ2. cbn. rewrite Hrun. cbn. split; [reflexivity|].
    split; [exact Hsh2|]. split; [intros _; exact Hd2|]. split; assumption.
  - exists σ. split; [reflexivity|]. split; [exact Hsh|].
    split; [|split; reflexivity].
    intros Hk1. assert (k = 1) as -> by lia. unfold drained.
    replace (Z.to_nat (Z.min L ((1 - 1) * C))) with 0%nat by lia.
    rewrite !take_0. reflexivity.
Qed.

Lemma stage_fill (k : Z) (σ : bufs A B) :
  0 <= k -> shaped L C σ ->
  exists σ3,
    run_step pipe_exec σ
      (if k <? nchunk L C
       then let st := k * C in
            let en := Z.min L ((k + 1) * C) in
            let s := en - st in
            [Submit Stream1 (Fill k (k mod 2) st en s)]
       else [])
    = Some σ3
    /\ shaped L C σ3 /\ (k < nchunk L C -> filled k σ3)
    /\ out_host σ3 = out_host σ /\ out_gpu σ3 = out_gpu σ.
Proof.
  intros Hk Hsh. destruct (Z.ltb_spec k (nchunk L C)).
  - destruct (fill_step k σ ltac:(lia) Hsh) as (σ3 & Hrun & Hsh3 & Hf & Ho & Hog).
    exists σ3. cbn. rewrite Hrun. cbn. split; [reflexivity|].
    split; [exact Hsh3|]. split; [intros _; exact Hf|]. split; assumption.
  - exists σ. split; [reflexivity|]. split; [exact Hsh|].
    split; [lia|]. split; reflexivity.
Qed.

Lemma run_step_app (σ : bufs A B) (es1 es2 : list event) :
  run_step pipe_exec σ (es1 ++ es2)
  = run_step pipe_exec σ es1 ≫= fun σ' => run_step pipe_exec σ' es2.
Proof. apply foldM_app. Qed.

(** One whole step: the invariant moves from [k] to [k + 1]. *)
Lemma pipe_step (k : Z) (σ : bufs A B) :
  0 <= k < nchunk L C + 2 -> pipe_inv k σ ->
  exists σ', run_step pipe_exec σ (iter_step L C k) = Some σ'
    /\ pipe_inv (k + 1) σ'.
Proof.
  intros Hk Hinv.
  destruct (stage_compute k σ ltac:(lia) Hinv)
    as (σ1 & Hr1 & Hsh1 & Hc1 & Hc1' & Hd1).
  destruct (stage_drain k σ1 Hk Hsh1 Hc1' Hd1)
    as (σ2 & Hr2 & Hsh2 & Hd2 & Hog2 & Hig2).
  destruct (stage_fill k σ2 ltac:(lia) Hsh2)
    as (σ3 & Hr3 & Hsh3 & Hf3 & Ho3 & Hog3).
  exists σ3. split.
  - cbv zeta in Hr2, Hr3. unfold iter_step. cbv zeta.
    rewrite run_step_app, Hr1. cbn [mbind option_bind].
    rewrite run_step_app, Hr2. cbn [mbind option_bind].
    rewrite run_step_app, Hr3. reflexivity.
  - split; [exact Hsh3|]. split; [|split].
    + intros Hk'. replace (k + 1 - 1) with k by lia. apply Hf3. lia.
    + intros Hk'. replace (k + 1 - 2) with (k - 1) by lia.
      destruct (Hc1 ltac:(lia)) as (slot & Hslot & Hv).
      exists slot. split; [|exact Hv]. rewrite Hog3, Hog2. exact Hslot.
    + intros Hk'. replace (k + 1 - 2) with (k - 1) by lia.
      unfold drained. rewrite Ho3. apply Hd2. lia.
Qed.

(** Every prefix of the loop runs, and leaves the pipeline in the state
    [pipe_inv] describes. *)
Lemma pipe_prefix (k : Z) (σ : bufs A B) :
  0 <= k <= nchunk L C + 2 -> shaped L C σ ->
  exists σk,
    run_schedule pipe_exec (take (Z.to_nat k) (iter_schedule L C)) σ = Some σk
    /\ pipe_inv k σk.
Proof.
  intros Hk Hsh.
  apply (schedule_prefix pipe_exec L C pipe_inv pipe_step k σ Hk).
  split; [exact Hsh|]. repeat split; intros; lia.
Qed.
End Pipeline.

(** ** Chunks tile the driven axis *)

Section Chunks.
Context {X : Type}.
Variables (L C : Z) (l : list X).
Hypothesis l_length : Z.of_nat (length l) = L.
Hypothesis C_pos : 0 < C.


Lemma chunk_length (k : Z) :
  0 <= k < nchunk L C ->
  Z.of_nat (length (chunk L C k l)) = Z.min L ((k + 1) * C) - k * C.
Proof.
  intros Hk. pose proof (ceil_div_spec L C C_pos) as Hs. unfold nchunk in Hk.
  unfold chunk. apply py_slice_range_length; nia.
Qed.


End Chunks.

(** A kernel that commutes with slicing along the driven axis can be
    applied chunk by chunk. *)
Section SlicingKernel.
Context {X Y : Type} (K : list X -> list Y).
Hypothesis K_length : forall l, length (K l) = length l.
Hypothesis K_slice : forall a b l, K (py_slice a b l) = py_slice a b (K l).

Lemma K_take (m : nat) (l : list X) : K (take m l) = take m (K l).
Proof.
  pose proof (K_slice None (Some (Z.of_nat m)) l) as E.
  rewrite !py_slice_prefix, Nat2Z.id in E by lia. exact E.
Qed.

Lemma K_drop (m : nat) (l : list X) : K (drop m l) = drop m (K l).
Proof.
  pose proof (K_slice (Some (Z.of_nat m)) None l) as E.
  rewrite !py_slice_suffix, Nat2Z.id in E by lia. exact E.
Qed.

End SlicingKernel.

(** ** [usfft1d_chunks] and [fft2_chunks] against the whole-array transform *)

Section LeadingAxisRuns.
Context {A B : Type}.
Variables (inp : list A).


End LeadingAxisRuns.

(** ** Negative bounds, rows of a device array, columns *)

Section RowFacts.
Context {X : Type}.
Implicit Types (row v : list X) (d : list (list (list X))).

(** [row[-s:] = v] *)
Lemma py_set_slice_tail row v (s : Z) :
  0 < s <= Z.of_nat (length row) -> Z.of_nat (length v) = s ->
  py_set_slice (Some (- s)) None v row
  = Some (take (Z.to_nat (Z.of_nat (length row) - s)) row ++ v).
Proof.
  intros Hs Hv. unfold py_set_slice, slice_start, slice_stop, slice_bound.
  destruct (Z.ltb_spec (- s) 0); [|lia].
  rewrite Z.max_r by lia. rewrite Z.max_r by lia.
  destruct (Z.eqb_spec (Z.of_nat (length v))
              (Z.of_nat (length row) - (- s + Z.of_nat (length row)))); [|lia].
  rewrite Nat2Z.id, drop_all, app_nil_r.
  do 3 f_equal. lia.
Qed.

(** [row[-s:-1] = v] *)
Lemma py_set_slice_tail_but_last row v (s : Z) :
  0 < s <= Z.of_nat (length row) -> Z.of_nat (length v) = s - 1 ->
  py_set_slice (Some (- s)) (Some (-1)) v row
  = Some (take (Z.to_nat (Z.of_nat (length row) - s)) row ++ v
          ++ drop (Z.to_nat (Z.of_nat (length row) - 1)) row).
Proof.
  intros Hs Hv. unfold py_set_slice, slice_start, slice_stop, slice_bound.
  destruct (Z.ltb_spec (- s) 0); [|lia].
  destruct (Z.ltb_spec (-1) 0); [|lia].
  rewrite (Z.max_r 0 (- s + _)) by lia.
  rewrite (Z.max_r 0 (-1 + _)) by lia.
  rewrite Z.max_r by lia.
  destruct (Z.eqb_spec (Z.of_nat (length v))
              (-1 + Z.of_nat (length row) - (- s + Z.of_nat (length row)))); [|lia].
  do 2 f_equal; [f_equal; lia|]. do 2 f_equal. lia.
Qed.

(** [row[-1] = x] *)
Lemma py_set_index_last row (x : X) :
  0 < Z.of_nat (length row) ->
  py_set_index (-1) x row = Some (<[Z.to_nat (Z.of_nat (length row) - 1) := x]> row).
Proof.
  intros H. unfold py_set_index, index_pos. cbn [Z.ltb Z.compare].
  destruct (Z.leb_spec 0 (-1 + Z.of_nat (length row))); [|lia].
  destruct (Z.ltb_spec (-1 + Z.of_nat (length row)) (Z.of_nat (length row))); [|lia].
  cbn. do 2 f_equal. lia.
Qed.

(** A slice whose upper bound is past the end. *)
Lemma py_slice_clamped row (a b : Z) :
  0 <= a <= Z.of_nat (length row) -> Z.of_nat (length row) <= b ->
  py_slice (Some a) (Some b) row = drop (Z.to_nat a) row.
Proof.
  intros Ha Hb. unfold py_slice, slice_start, slice_stop, slice_bound.
  destruct (Z.ltb_spec a 0); [lia|]. destruct (Z.ltb_spec b 0); [lia|].
  rewrite (Z.min_l a) by lia. rewrite (Z.min_r b) by lia.
  apply take_ge. rewrite length_drop. lia.
Qed.

Lemma set_row_slice_spec d (slot j : Z) (a b : option Z) v dev row row' :
  0 <= slot < Z.of_nat (length d) -> d !! Z.to_nat slot = Some dev ->
  0 <= j < Z.of_nat (length dev) -> dev !! Z.to_nat j = Some row ->
  py_set_slice a b v row = Some row' ->
  set_row_slice slot j a b v d
  = Some (<[Z.to_nat slot := <[Z.to_nat j := row']> dev]> d).
Proof.
  intros Hslot Hdev Hj Hrow Hset. unfold set_row_slice.
  rewrite py_index_in_range, Hdev by lia. cbn.
  rewrite py_index_in_range, Hrow by lia. cbn.
  rewrite Hset. cbn. rewrite py_set_index_in_range by lia. cbn.
  apply py_set_index_in_range. lia.
Qed.

Lemma set_row_index_spec d (slot j i : Z) (x : X) dev row row' :
  0 <= slot < Z.of_nat (length d) -> d !! Z.to_nat slot = Some dev ->
  0 <= j < Z.of_nat (length dev) -> dev !! Z.to_nat j = Some row ->
  py_set_index i x row = Some row' ->
  set_row_index slot j i x d
  = Some (<[Z.to_nat slot := <[Z.to_nat j := row']> dev]> d).
Proof.
  intros Hslot Hdev Hj Hrow Hset. unfold set_row_index.
  rewrite py_index_in_range, Hdev by lia. cbn.
  rewrite py_index_in_range, Hrow by lia. cbn.
  rewrite Hset. cbn. rewrite py_set_index_in_range by lia. cbn.
  apply py_set_index_in_range. lia.
Qed.

Lemma matrix_lookup (r w : Z) (m : list (list X)) (j : Z) :
  matrix r w m -> 0 <= j < r ->
  exists row, m !! Z.to_nat j = Some row /\ Z.of_nat (length row) = w.
Proof.
  intros [Hlen Hall] Hj.
  destruct (lookup_lt_is_Some_2 m (Z.to_nat j) ltac:(lia)) as [row Hrow].
  exists row. split; [exact Hrow|].
  rewrite Forall_lookup in Hall. exact (Hall _ _ Hrow).
Qed.

Lemma matrix_insert (r w : Z) (m : list (list X)) (j : nat) row :
  matrix r w m -> Z.of_nat (length row) = w -> matrix r w (<[j := row]> m).
Proof.
  intros [Hlen Hall] Hrow. split; [rewrite length_insert; exact Hlen|].
  apply Forall_insert; assumption.
Qed.

Lemma column_Some (i : Z) (rows : list (list X)) (P : list X) :
  column i rows = Some P <-> Forall2 (fun row x => py_index i row = Some x) rows P.
Proof. unfold column. apply mapM_Some. Qed.

Lemma column_exists (i w : Z) (rows : list (list X)) :
  Forall (fun row => Z.of_nat (length row) = w) rows -> 0 <= i < w ->
  exists P, column i rows = Some P.
Proof.
  intros Hall Hi. induction Hall as [|row rows Hrow Hall IH].
  - exists []. reflexivity.
  - destruct IH as [P HP].
    destruct (lookup_lt_is_Some_2 row (Z.to_nat i) ltac:(lia)) as [x Hx].
    exists (x :: P). unfold column in *. cbn.
    rewrite py_index_in_range by lia. rewrite Hx. cbn. rewrite HP. reflexivity.
Qed.

(** Two arrays with the same entries in two columns have the same
    columns there. *)
Lemma column_transfer (i1 i2 : Z) (rows1 rows2 : list (list X)) :
  Forall2 (fun r1 r2 => py_index i1 r1 = py_index i2 r2) rows1 rows2 ->
  column i1 rows1 = column i2 rows2.
Proof.
  intros H. unfold column. induction H as [|r1 r2 rows1 rows2 Hr H IH]; [reflexivity|].
  cbn. rewrite Hr, IH. reflexivity.
Qed.
End RowFacts.

(** ** [usfft2d_chunks]: the host-to-device block *)

Section SecondAxisFill.
Context {X Y : Type}.
Variables (c : cl_conf) (inp : list (list X)).
Hypothesis deth_pos : 0 < deth c.
Hypothesis dethc_pos : 0 < dethc c.
Hypothesis inp_ok : matrix (ntheta c) (deth c) inp.

Lemma chunk2_bounds (k : Z) :
  0 <= k < nchunk (deth c / 2 + 1) (dethc c) ->
  0 <= k * dethc c < Z.min (deth c / 2 + 1) ((k + 1) * dethc c)
  /\ Z.min (deth c / 2 + 1) ((k + 1) * dethc c) <= deth c / 2 + 1
  /\ Z.min (deth c / 2 + 1) ((k + 1) * dethc c) - k * dethc c <= dethc c
  /\ deth c / 2 + 1 <= deth c.
Proof.
  intros Hk. pose proof (ceil_div_spec (deth c / 2 + 1) (dethc c) dethc_pos) as Hs.
  unfold nchunk in Hk.
  assert (deth c / 2 + 1 <= deth c) as Hhalf by divlia.
  revert Hk Hs Hhalf. generalize (deth c / 2 + 1) as La.
  generalize (ceil_div (deth c / 2 + 1) (dethc c)) as Na.
  intros Na La Hk Hs Hhalf. nia.
Qed.

(** The primary row after [inp_gpu[slot, j, :s].set(inp[j, st:end])]. *)
Lemma primary_row (src row : list X) (st en : Z) :
  Z.of_nat (length src) = deth c -> Z.of_nat (length row) = dethc c ->
  0 <= st < en -> en <= deth c -> en - st <= dethc c ->
  exists prow,
    py_set_slice None (Some (en - st)) (py_slice (Some st) (Some en) src) row
    = Some prow
    /\ Z.of_nat (length prow) = dethc c
    /\ forall i, 0 <= i < en - st ->
         prow !! Z.to_nat i = src !! Z.to_nat (st + i).
Proof.
  intros Hsrc Hrow Hst Hen Hs.
  rewrite py_set_slice_prefix; [|lia|rewrite py_slice_range_length; lia].
  eexists. split; [reflexivity|].
  rewrite py_slice_range by lia. split.
  - rewrite length_app, length_take, !length_drop. lia.
  - intros i Hi. rewrite lookup_app_l by (rewrite length_take, length_drop; lia).
    rewrite lookup_take_lt by lia. rewrite lookup_drop. f_equal. lia.
Qed.

(** The mirror row after the writes of lines 184-188: position
    [dethc - 1 - i] holds the source at the mirror of frequency [st + i]. *)
Lemma mirror_row (k : Z) (src row : list X) (st en : Z) :
  Z.of_nat (length src) = deth c -> Z.of_nat (length row) = dethc c ->
  0 <= st < en -> en <= deth c / 2 + 1 -> en - st <= dethc c ->
  (k = 0 <-> st = 0) ->
  exists mrow,
    (if k =? 0
     then
       r1 ← py_set_slice (Some (- (en - st))) (Some (-1))
              (py_slice (Some (deth c - en + 1)) (Some (deth c - st + 1)) src) row;
       x ← py_index 0 src;
       py_set_index (-1) x r1
     else
       py_set_slice (Some (- (en - st))) None
         (py_slice (Some (deth c - en + 1)) (Some (deth c - st + 1)) src) row)
    = Some mrow
    /\ Z.of_nat (length mrow) = dethc c
    /\ forall i, 0 <= i < en - st ->
         mrow !! Z.to_nat (dethc c - 1 - i)
         = src !! Z.to_nat ((deth c - (st + i)) mod deth c).
Proof.
  intros Hsrc Hrow Hst Hen Hs Hk.
  assert (deth c / 2 + 1 <= deth c) as Hhalf by divlia.
  destruct (Z.eqb_spec k 0) as [Hk0|Hk0].
  - assert (st = 0) as -> by (apply Hk; exact Hk0).
    rewrite Z.sub_0_r in *.
    rewrite py_slice_clamped by lia.
    rewrite py_set_slice_tail_but_last;
      [|lia|rewrite length_drop; lia].
    cbn. rewrite py_index_in_range by lia.
    destruct (lookup_lt_is_Some_2 src (Z.to_nat 0) ltac:(lia)) as [x Hx].
    rewrite Hx. cbn.
    set (base := take _ row ++ drop _ src ++ drop _ row).
    assert (Z.of_nat (length base) = dethc c) as Hbase.
    { subst base. rewrite !length_app, length_take, !length_drop. lia. }
    rewrite py_set_index_last by lia. rewrite Hbase.
    eexists. split; [reflexivity|]. split.
    + rewrite length_insert. exact Hbase.
    + intros i Hi. destruct (Z.eq_dec i 0) as [->|Hi0].
      * replace ((deth c - (0 + 0)) mod deth c) with 0
          by (rewrite Z.add_0_r, Z.sub_0_r, Z.mod_same; lia).
        rewrite Hx. replace (dethc c - 1 - 0) with (dethc c - 1) by lia.
        apply list_lookup_insert_eq. lia.
      * rewrite list_lookup_insert_ne by lia.
        rewrite Z.mod_small by lia. subst base.
        rewrite lookup_app_r by (rewrite length_take; lia).
        rewrite length_take.
        rewrite lookup_app_l by (rewrite length_drop; lia).
        rewrite lookup_drop. f_equal. lia.
  - assert (1 <= st) as Hst1 by (destruct (Z.eq_dec st 0) as [E|E]; [apply Hk in E; lia|lia]).
    rewrite py_slice_range by lia.
    rewrite py_set_slice_tail; [|lia|rewrite length_take, length_drop; lia].
    eexists. split; [reflexivity|]. split.
    + rewrite length_app, !length_take, length_drop. lia.
    + intros i Hi. rewrite Z.mod_small by lia.
      rewrite lookup_app_r by (rewrite length_take; lia).
      rewrite length_take.
      rewrite lookup_take_lt by lia.
      rewrite lookup_drop. f_equal. lia.
Qed.

(** One iteration of the loop over [j]: rows [j] and [j + ntheta] of the
    slot are rewritten, nothing else. *)
Lemma fill2_row_spec (k j : Z) (σ : bufs2 X Y) (dev : list (list X)) :
  0 <= k < nchunk (deth c / 2 + 1) (dethc c) -> 0 <= j < ntheta c ->
  length (inp_gpu2 σ) = 2%nat ->
  inp_gpu2 σ !! Z.to_nat (k mod 2) = Some dev ->
  matrix (2 * ntheta c) (dethc c) dev ->
  exists src prow mrow,
    inp !! Z.to_nat j = Some src
    /\ fill2_row c inp k (k mod 2) (k * dethc c)
          (Z.min (deth c / 2 + 1) ((k + 1) * dethc c))
          (Z.min (deth c / 2 + 1) ((k + 1) * dethc c) - k * dethc c) σ j
        = Some (Bufs2 (out_host2 σ) (out_gpu2 σ)
                  (<[Z.to_nat (k mod 2) :=
                       <[Z.to_nat (j + ntheta c) := mrow]>
                         (<[Z.to_nat j := prow]> dev)]> (inp_gpu2 σ)))
    /\ Z.of_nat (length prow) = dethc c
    /\ Z.of_nat (length mrow) = dethc c
    /\ (forall i,
          0 <= i < Z.min (deth c / 2 + 1) ((k + 1) * dethc c) - k * dethc c ->
          prow !! Z.to_nat i = src !! Z.to_nat (k * dethc c + i))
    /\ (forall i,
          0 <= i < Z.min (deth c / 2 + 1) ((k + 1) * dethc c) - k * dethc c ->
          mrow !! Z.to_nat (dethc c - 1 - i)
          = src !! Z.to_nat ((deth c - (k * dethc c + i)) mod deth c)).
Proof.
  intros Hk Hj Hlen Hdev Hmat.
  destruct (chunk2_bounds k Hk) as (Hst & Hen & Hs & Hhalf).
  set (st := k * dethc c) in *.
  set (en := Z.min (deth c / 2 + 1) ((k + 1) * dethc c)) in *.
  pose proof (Z.mod_pos_bound k 2 ltac:(lia)) as Hm2.
  destruct (matrix_lookup _ _ _ j inp_ok Hj) as (src & Hsrc & Hsrclen).
  destruct (matrix_lookup _ _ _ j Hmat ltac:(lia)) as (row0 & Hrow0 & Hrow0len).
  destruct (matrix_lookup _ _ _ (j + ntheta c) Hmat ltac:(lia))
    as (mrow0 & Hmrow0 & Hmrow0len).
  destruct (primary_row src row0 st en Hsrclen Hrow0len ltac:(lia) ltac:(lia) Hs)
    as (prow & Hpset & Hplen & Hpent).
  destruct (mirror_row k src mrow0 st en Hsrclen Hmrow0len ltac:(lia) Hen Hs)
    as (mrow & Hmset & Hmlen & Hment).
  { subst st. nia. }
  exists src, prow, mrow. split; [exact Hsrc|].
  split; [|repeat split; assumption].
  assert (Z.of_nat (length dev) = 2 * ntheta c) as Hdevlen by apply Hmat.
  unfold fill2_row. rewrite py_index_in_range, Hsrc by (destruct inp_ok; lia).
  cbn [mbind option_bind].
  rewrite (set_row_slice_spec _ _ _ _ _ _ dev row0 prow) by (assumption || lia).
  cbn [mbind option_bind].
  set (ig1 := <[Z.to_nat (k mod 2) := <[Z.to_nat j := prow]> dev]> (inp_gpu2 σ)).
  assert (ig1 !! Z.to_nat (k mod 2) = Some (<[Z.to_nat j := prow]> dev)) as Hig1
    by (subst ig1; apply list_lookup_insert_eq; lia).
  assert ((<[Z.to_nat j := prow]> dev) !! Z.to_nat (j + ntheta c) = Some mrow0)
    as Hm1 by (rewrite list_lookup_insert_ne by lia; exact Hmrow0).
  assert (length ig1 = 2%nat) as Hig1len
    by (subst ig1; rewrite length_insert; exact Hlen).
  destruct (Z.eqb_spec k 0) as [Hk0|Hk0].
  - destruct (py_set_slice (Some (- (en - st))) (Some (-1)) _ mrow0)
      as [r1|] eqn:Hr1; [|discriminate].
    cbn [mbind option_bind] in Hmset.
    destruct (py_index 0 src) as [x|] eqn:Hx; [|discriminate].
    cbn [mbind option_bind] in Hmset.
    rewrite (set_row_slice_spec ig1 (k mod 2) (j + ntheta c) _ _ _
               (<[Z.to_nat j := prow]> dev) mrow0 r1);
      [|lia|exact Hig1|rewrite length_insert; lia|exact Hm1|exact Hr1].
    cbn [mbind option_bind].
    set (dev2 := <[Z.to_nat (j + ntheta c) := r1]> (<[Z.to_nat j := prow]> dev)).
    rewrite (set_row_index_spec
               (<[Z.to_nat (k mod 2) := dev2]> ig1)
               (k mod 2) (j + ntheta c) (-1) x dev2 r1 mrow);
      [|rewrite length_insert; lia
       |apply list_lookup_insert_eq; lia
       |subst dev2; rewrite !length_insert; lia
       |subst dev2; apply list_lookup_insert_eq; rewrite length_insert; lia
       |exact Hmset].
    cbn [mbind option_bind]. do 2 f_equal. subst dev2 ig1.
    rewrite (list_insert_insert_eq (inp_gpu2 σ)).
    rewrite (list_insert_insert_eq (inp_gpu2 σ)).
    rewrite (list_insert_insert_eq (<[Z.to_nat j := prow]> dev)).
    reflexivity.
  - rewrite (set_row_slice_spec ig1 (k mod 2) (j + ntheta c) _ _ _
               (<[Z.to_nat j := prow]> dev) mrow0 mrow);
      [|lia|exact Hig1|rewrite length_insert; lia|exact Hm1|exact Hmset].
    cbn [mbind option_bind]. do 2 f_equal. subst ig1.
    apply (list_insert_insert_eq (inp_gpu2 σ)).
Qed.

(** Rows [0 .. t-1] of the source hold chunk [k] in a device slot, with
    its mirror. *)
Definition rows_filled (k t : Z) (dev : list (list X)) : Prop :=
  forall j src, 0 <= j < t -> inp !! Z.to_nat j = Some src ->
    (exists prow, dev !! Z.to_nat j = Some prow
       /\ forall i,
            0 <= i < Z.min (deth c / 2 + 1) ((k + 1) * dethc c) - k * dethc c ->
            prow !! Z.to_nat i = src !! Z.to_nat (k * dethc c + i))
    /\ (exists mrow, dev !! Z.to_nat (j + ntheta c) = Some mrow
          /\ forall i,
               0 <= i < Z.min (deth c / 2 + 1) ((k + 1) * dethc c) - k * dethc c ->
               mrow !! Z.to_nat (dethc c - 1 - i)
               = src !! Z.to_nat ((deth c - (k * dethc c + i)) mod deth c)).

Lemma fill2_rows (k : Z) (m : nat) (t : Z) (σ : bufs2 X Y) (dev : list (list X)) :
  0 <= k < nchunk (deth c / 2 + 1) (dethc c) ->
  0 <= t -> t + Z.of_nat m <= ntheta c ->
  length (inp_gpu2 σ) = 2%nat ->
  inp_gpu2 σ !! Z.to_nat (k mod 2) = Some dev ->
  matrix (2 * ntheta c) (dethc c) dev -> rows_filled k t dev ->
  exists σ' dev',
    foldM (fill2_row c inp k (k mod 2) (k * dethc c)
             (Z.min (deth c / 2 + 1) ((k + 1) * dethc c))
             (Z.min (deth c / 2 + 1) ((k + 1) * dethc c) - k * dethc c))
          (seqZ t (Z.of_nat m)) σ = Some σ'
    /\ out_host2 σ' = out_host2 σ /\ out_gpu2 σ' = out_gpu2 σ
    /\ inp_gpu2 σ' = <[Z.to_nat (k mod 2) := dev']> (inp_gpu2 σ)
    /\ matrix (2 * ntheta c) (dethc c) dev'
    /\ rows_filled k (t + Z.of_nat m) dev'.
Proof.
  intros Hk. revert t σ dev.
  pose proof (Z.mod_pos_bound k 2 ltac:(lia)) as Hm2.
  induction m as [|m IH]; intros t σ dev Ht Htm Hlen Hdev Hmat Hrows.
  - exists σ, dev. cbn. split; [reflexivity|]. split; [reflexivity|].
    split; [reflexivity|]. split; [symmetry; apply list_insert_id; exact Hdev|].
    split; [exact Hmat|]. rewrite Z.add_0_r. exact Hrows.
  - rewrite seqZ_cons by lia. cbn [foldM].
    destruct (fill2_row_spec k t σ dev Hk ltac:(lia) Hlen Hdev Hmat)
      as (src & prow & mrow & Hsrc & Hrun & Hplen & Hmlen & Hpent & Hment).
    rewrite Hrun. cbn [mbind option_bind].
    set (dev1 := <[Z.to_nat (t + ntheta c) := mrow]> (<[Z.to_nat t := prow]> dev)).
    replace (Z.pred (Z.of_nat (S m))) with (Z.of_nat m) by lia.
    assert (Z.of_nat (length dev) = 2 * ntheta c) as Hdevlen by apply Hmat.
    destruct (IH (Z.succ t)
              (Bufs2 (out_host2 σ) (out_gpu2 σ)
                 (<[Z.to_nat (k mod 2) := dev1]> (inp_gpu2 σ))) dev1)
    as (σ' & dev' & Hr & Ho & Hog & Hig & Hmat' & Hrows').
    + lia.
    + lia.
    + cbn. rewrite length_insert. exact Hlen.
    + cbn. apply list_lookup_insert_eq. lia.
    + subst dev1. apply matrix_insert; [apply matrix_insert|]; assumption.
    + intros j src' Hj Hsrc'. subst dev1.
      destruct (Z.eq_dec j t) as [->|Hjt].
      * assert (src' = src) as -> by congruence. split.
        -- exists prow. split; [|exact Hpent].
           rewrite list_lookup_insert_ne by lia.
           apply list_lookup_insert_eq. lia.
        -- exists mrow. split; [|exact Hment].
           apply list_lookup_insert_eq. rewrite length_insert. lia.
      * destruct (Hrows j src' ltac:(lia) Hsrc') as [(pr & Hpr & Hprent) (mr & Hmr & Hmrent)].
        split.
        -- exists pr. split; [|exact Hprent].
           rewrite !list_lookup_insert_ne by lia. exact Hpr.
        -- exists mr. split; [|exact Hmrent].
           rewrite !list_lookup_insert_ne by lia. exact Hmr.
    + exists σ', dev'. split; [exact Hr|]. cbn in Ho, Hog, Hig.
      split; [exact Ho|]. split; [exact Hog|].
      split; [rewrite Hig; apply list_insert_insert_eq|].
      split; [exact Hmat'|].
      replace (t + Z.of_nat (S m)) with (Z.succ t + Z.of_nat m) by lia.
      exact Hrows'.
Qed.
End SecondAxisFill.

(** ** [usfft2d_chunks]: the device-to-host block *)

Section SecondAxisDrain.
Context {X Y : Type}.
Variable c : cl_conf.
Hypothesis dethc_pos : 0 < dethc c.

(** Row [j] of the destination after the copy of a chunk. *)
Definition drained_row (st en : Z) (row d : list Y) : list Y :=
  take (Z.to_nat st) row ++ take (Z.to_nat (en - st)) d ++ drop (Z.to_nat en) row.

Lemma drained_row_length (st en : Z) (row d : list Y) :
  0 <= st <= en -> en <= Z.of_nat (length row) ->
  en - st <= Z.of_nat (length d) ->
  length (drained_row st en row d) = length row.
Proof.
  intros. unfold drained_row.
  rewrite !length_app, !length_take, length_drop. lia.
Qed.

Lemma drain2_row_spec (slot st en j : Z) (σ : bufs2 X Y) dev :
  0 <= slot < 2 -> length (out_gpu2 σ) = 2%nat ->
  out_gpu2 σ !! Z.to_nat slot = Some dev ->
  matrix (n1 c) (dethc c) dev ->
  matrix (n1 c) (deth c / 2 + 1) (out_host2 σ) ->
  0 <= j < n1 c -> 0 <= st <= en -> en <= deth c / 2 + 1 ->
  en - st <= dethc c ->
  exists row d,
    out_host2 σ !! Z.to_nat j = Some row /\ dev !! Z.to_nat j = Some d
    /\ drain2_row slot st en (en - st) σ j
       = Some (Bufs2 (<[Z.to_nat j := drained_row st en row d]> (out_host2 σ))
                     (out_gpu2 σ) (inp_gpu2 σ)).
Proof.
  intros Hslot Hlen Hdev Hmat Hout Hj Hst Hen Hs.
  destruct (matrix_lookup _ _ _ j Hmat Hj) as (d & Hd & Hdlen).
  destruct (matrix_lookup _ _ _ j Hout Hj) as (row & Hrow & Hrowlen).
  exists row, d. split; [exact Hrow|]. split; [exact Hd|].
  unfold drain2_row.
  rewrite (py_index_in_range (out_gpu2 σ) slot), Hdev by lia. cbn.
  rewrite (py_index_in_range dev j), Hd by (destruct Hmat; lia). cbn.
  rewrite (py_index_in_range (out_host2 σ) j), Hrow by (destruct Hout; lia). cbn.
  rewrite py_slice_prefix by lia.
  rewrite py_set_slice_range; [|lia|lia|rewrite length_take; lia]. cbn.
  rewrite py_set_index_in_range by (destruct Hout; lia). reflexivity.
Qed.

Lemma drain2_rows (slot st en : Z) (m : nat) (t : Z) (σ0 σ : bufs2 X Y) dev :
  0 <= slot < 2 -> length (out_gpu2 σ0) = 2%nat ->
  out_gpu2 σ0 !! Z.to_nat slot = Some dev ->
  matrix (n1 c) (dethc c) dev ->
  matrix (n1 c) (deth c / 2 + 1) (out_host2 σ0) ->
  0 <= st <= en -> en <= deth c / 2 + 1 -> en - st <= dethc c ->
  0 <= t -> t + Z.of_nat m <= n1 c ->
  out_gpu2 σ = out_gpu2 σ0 -> inp_gpu2 σ = inp_gpu2 σ0 ->
  length (out_host2 σ) = length (out_host2 σ0) ->
  (forall r row d, out_host2 σ0 !! r = Some row -> dev !! r = Some d ->
     out_host2 σ !! r
     = Some (if Z.of_nat r <? t then drained_row st en row d else row)) ->
  exists σ',
    foldM (drain2_row slot st en (en - st)) (seqZ t (Z.of_nat m)) σ = Some σ'
    /\ out_gpu2 σ' = out_gpu2 σ0 /\ inp_gpu2 σ' = inp_gpu2 σ0
    /\ length (out_host2 σ') = length (out_host2 σ0)
    /\ (forall r row d, out_host2 σ0 !! r = Some row -> dev !! r = Some d ->
          out_host2 σ' !! r
          = Some (if Z.of_nat r <? t + Z.of_nat m
                  then drained_row st en row d else row)).
Proof.
  intros Hslot Hlen Hdev Hmat Hout0 Hst Hen Hs. revert t σ.
  induction m as [|m IH]; intros t σ Ht Htm Hog Hig Holen Hrows.
  - exists σ. split; [reflexivity|]. rewrite Z.add_0_r. auto.
  - rewrite seqZ_cons by lia. cbn [foldM].
    assert (matrix (n1 c) (deth c / 2 + 1) (out_host2 σ)) as Hout.
    { destruct Hout0 as [Hl0 Hall0]. split; [lia|].
      apply Forall_lookup_2. intros r row' Hr'.
      destruct (lookup_lt_is_Some_2 (out_host2 σ0) r) as [row Hrow].
      { rewrite <- Holen. eapply lookup_lt_Some. exact Hr'. }
      destruct (lookup_lt_is_Some_2 dev r) as [d Hd].
      { destruct Hmat as [Hl _]. apply lookup_lt_Some in Hrow. lia. }
      rewrite (Hrows r row d Hrow Hd) in Hr'. injection Hr' as <-.
      pose proof (Forall_lookup_1 _ _ _ _ Hall0 Hrow) as Hrl. cbv beta in Hrl.
      pose proof (Forall_lookup_1 _ _ _ _ (proj2 Hmat) Hd) as Hdl. cbv beta in Hdl.
      destruct (Z.of_nat r <? t); [|exact Hrl].
      rewrite drained_row_length by lia. exact Hrl. }
    destruct (drain2_row_spec slot st en t σ dev Hslot)
      as (row & d & Hrow & Hd & Hrun); try (rewrite ?Hog; assumption); try lia.
    rewrite Hrun. cbn [mbind option_bind].
    replace (Z.pred (Z.of_nat (S m))) with (Z.of_nat m) by lia.
    destruct (IH (Z.succ t)
              (Bufs2 (<[Z.to_nat t := drained_row st en row d]> (out_host2 σ))
                 (out_gpu2 σ) (inp_gpu2 σ)))
    as (σ' & Hr & Hog' & Hig' & Hlen' & Hrows').
    + lia.
    + lia.
    + cbn. exact Hog.
    + cbn. exact Hig.
    + cbn. rewrite length_insert. exact Holen.
    + cbn. intros r row0 d0 Hrow0 Hd0.
      destruct (Nat.eq_dec r (Z.to_nat t)) as [->|Hrt].
      * rewrite list_lookup_insert_eq
          by (apply lookup_lt_Some in Hrow; exact Hrow).
        pose proof (Hrows _ _ _ Hrow0 Hd0) as E. rewrite Hrow in E.
        destruct (Z.ltb_spec (Z.of_nat (Z.to_nat t)) t); [lia|].
        injection E as ->. assert (d0 = d) as -> by congruence.
        destruct (Z.ltb_spec (Z.of_nat (Z.to_nat t)) (Z.succ t)); [reflexivity|lia].
      * rewrite list_lookup_insert_ne by congruence.
        rewrite (Hrows _ _ _ Hrow0 Hd0).
        destruct (Z.ltb_spec (Z.of_nat r) t), (Z.ltb_spec (Z.of_nat r) (Z.succ t));
          try reflexivity; lia.
    + exists σ'. split; [exact Hr|]. split; [exact Hog'|].
      split; [exact Hig'|]. split; [exact Hlen'|].
      intros r row0 d0 Hrow0 Hd0. rewrite (Hrows' _ _ _ Hrow0 Hd0).
      replace (t + Z.of_nat (S m)) with (Z.succ t + Z.of_nat m) by lia.
      reflexivity.
Qed.
End SecondAxisDrain.

(** ** [usfft2d_chunks] against the whole-array transform *)

Section SecondAxisPipeline.
Context {X Y : Type}.
Variables (c : cl_conf) (inp : list (list X)).
Variable usfft2d_adj : Z -> list (list X) -> list (list Y).
Variable g : Z -> list X -> list X -> list Y.
Hypothesis deth_pos : 0 < deth c.
Hypothesis dethc_pos : 0 < dethc c.
Hypothesis inp_ok : matrix (ntheta c) (deth c) inp.
Hypothesis kernel_ok : frequencywise c g usfft2d_adj.

(** Frequency [m] of the result is in [col]. *)
Definition freq_done (m : Z) (col : option (list Y)) : Prop :=
  exists P M, column m inp = Some P /\ column (mirror c m) inp = Some M
    /\ col = Some (g m P M).

Definition filled2 (k : Z) (σ : bufs2 X Y) : Prop :=
  exists dev, inp_gpu2 σ !! Z.to_nat (k mod 2) = Some dev
    /\ rows_filled c inp k (ntheta c) dev.

Definition computed2 (k : Z) (σ : bufs2 X Y) : Prop :=
  exists dev, out_gpu2 σ !! Z.to_nat (k mod 2) = Some dev
    /\ forall i,
         0 <= i < Z.min (deth c / 2 + 1) ((k + 1) * dethc c) - k * dethc c ->
         freq_done (k * dethc c + i) (column i dev).

Definition drained2 (k : Z) (σ : bufs2 X Y) : Prop :=
  forall m, 0 <= m < Z.min (deth c / 2 + 1) (k * dethc c) ->
    freq_done m (column m (out_host2 σ)).

Definition pipe2_inv (k : Z) (σ : bufs2 X Y) : Prop :=
  shaped2 c σ
  /\ (1 <= k <= nchunk (deth c / 2 + 1) (dethc c) -> filled2 (k - 1) σ)
  /\ (2 <= k <= nchunk (deth c / 2 + 1) (dethc c) + 1 -> computed2 (k - 2) σ)
  /\ (2 <= k -> drained2 (k - 2) σ).

Lemma mirror_bounds (m : Z) : 0 <= mirror c m < deth c.
Proof. unfold mirror. apply Z.mod_pos_bound. exact deth_pos. Qed.

(** The columns of a filled slot are the columns of the source. *)
Lemma filled_columns (k i : Z) (dev : list (list X)) :
  0 <= k < nchunk (deth c / 2 + 1) (dethc c) ->
  matrix (2 * ntheta c) (dethc c) dev -> rows_filled c inp k (ntheta c) dev ->
  0 <= i < Z.min (deth c / 2 + 1) ((k + 1) * dethc c) - k * dethc c ->
  column i (take (Z.to_nat (ntheta c)) dev) = column (k * dethc c + i) inp
  /\ column (dethc c - 1 - i) (drop (Z.to_nat (ntheta c)) dev)
     = column (mirror c (k * dethc c + i)) inp.
Proof.
  intros Hk Hmat Hrows Hi.
  destruct (chunk2_bounds c deth_pos dethc_pos k Hk) as (Hst & Hen & Hs & Hhalf).
  pose proof (mirror_bounds (k * dethc c + i)) as Hmir.
  destruct Hmat as [Hdevlen Hdevall]. destruct inp_ok as [Hinplen Hinpall].
  split; apply column_transfer; apply Forall2_same_length_lookup_2.
  - rewrite length_take. lia.
  - intros r r1 src Hr1 Hsrc.
    assert (r < Z.to_nat (ntheta c))%nat as Hr
      by (apply lookup_lt_Some in Hsrc; lia).
    rewrite lookup_take_lt in Hr1 by exact Hr.
    destruct (Hrows (Z.of_nat r) src ltac:(lia)) as [(prow & Hprow & Hent) _].
    { rewrite Nat2Z.id. exact Hsrc. }
    rewrite Nat2Z.id in Hprow. assert (r1 = prow) as -> by congruence.
    pose proof (Forall_lookup_1 _ _ _ _ Hdevall Hprow) as Hpl. cbv beta in Hpl.
    pose proof (Forall_lookup_1 _ _ _ _ Hinpall Hsrc) as Hsl. cbv beta in Hsl.
    rewrite !py_index_in_range by lia. apply Hent. exact Hi.
  - rewrite length_drop. lia.
  - intros r r1 src Hr1 Hsrc.
    assert (r < Z.to_nat (ntheta c))%nat as Hr
      by (apply lookup_lt_Some in Hsrc; lia).
    rewrite lookup_drop in Hr1.
    destruct (Hrows (Z.of_nat r) src ltac:(lia)) as [_ (mrow & Hmrow & Hent)].
    { rewrite Nat2Z.id. exact Hsrc. }
    replace (Z.to_nat (Z.of_nat r + ntheta c)) with (Z.to_nat (ntheta c) + r)%nat
      in Hmrow by lia.
    assert (r1 = mrow) as -> by congruence.
    pose proof (Forall_lookup_1 _ _ _ _ Hdevall Hmrow) as Hml. cbv beta in Hml.
    pose proof (Forall_lookup_1 _ _ _ _ Hinpall Hsrc) as Hsl. cbv beta in Hsl.
    rewrite !py_index_in_range by lia. apply Hent. exact Hi.
Qed.

Lemma compute2_step (k : Z) (σ : bufs2 X Y) :
  1 <= k <= nchunk (deth c / 2 + 1) (dethc c) -> shaped2 c σ ->
  filled2 (k - 1) σ ->
  exists σ', usfft2d_compute usfft2d_adj (k - 1) ((k - 1) mod 2) σ = Some σ'
    /\ shaped2 c σ' /\ computed2 (k - 1) σ'
    /\ out_host2 σ' = out_host2 σ
    /\ (forall j, j <> Z.to_nat ((k - 1) mod 2) ->
          out_gpu2 σ' !! j = out_gpu2 σ !! j)
    /\ inp_gpu2 σ' = inp_gpu2 σ.
Proof.
  intros Hk (Hout & Hoglen & Hogall & Higlen & Higall) (dev & Hdev & Hrows).
  pose proof (Z.mod_pos_bound (k - 1) 2 ltac:(lia)) as Hm.
  pose proof (Forall_lookup_1 _ _ _ _ Higall Hdev) as Hmat. cbv beta in Hmat.
  destruct (kernel_ok (k - 1) dev Hmat) as [Hkmat Hkcol].
  destruct (chunk2_bounds c deth_pos dethc_pos (k - 1) ltac:(lia))
    as (Hst & Hen & Hs & Hhalf).
  unfold usfft2d_compute. rewrite py_index_in_range, Hdev by lia. cbn.
  rewrite py_set_index_in_range by lia. cbn.
  eexists. split; [reflexivity|]. cbn.
  split; [|split; [|split; [reflexivity|split; [|reflexivity]]]].
  - unfold shaped2. cbn [out_host2 out_gpu2 inp_gpu2].
    split; [exact Hout|]. split; [rewrite length_insert; exact Hoglen|].
    split; [apply Forall_insert; assumption|]. split; assumption.
  - exists (usfft2d_adj (k - 1) dev). split.
    + apply list_lookup_insert_eq. lia.
    + intros i Hi.
      destruct (filled_columns (k - 1) i dev ltac:(lia) Hmat Hrows Hi) as [Ep Em].
      destruct (column_exists (X:=X) ((k - 1) * dethc c + i) (deth c) inp
                  (proj2 inp_ok) ltac:(lia)) as [P HP].
      destruct (column_exists (X:=X) (mirror c ((k - 1) * dethc c + i)) (deth c) inp
                  (proj2 inp_ok) (mirror_bounds _)) as [M HM].
      exists P, M. split; [exact HP|]. split; [exact HM|].
      apply Hkcol; [lia|congruence|congruence].
  - intros j Hj. apply list_lookup_insert_ne. congruence.
Qed.

Lemma drain2_step (k : Z) (σ : bufs2 X Y) :
  2 <= k <= nchunk (deth c / 2 + 1) (dethc c) + 1 -> shaped2 c σ ->
  computed2 (k - 2) σ -> drained2 (k - 2) σ ->
  exists σ',
    drain2 ((k - 2) mod 2) ((k - 2) * dethc c)
      (Z.min (deth c / 2 + 1) ((k - 1) * dethc c))
      (Z.min (deth c / 2 + 1) ((k - 1) * dethc c) - (k - 2) * dethc c) σ = Some σ'
    /\ shaped2 c σ' /\ drained2 (k - 1) σ'
    /\ out_gpu2 σ' = out_gpu2 σ /\ inp_gpu2 σ' = inp_gpu2 σ.
Proof.
  intros Hk (Hout & Hoglen & Hogall & Higlen & Higall) (dev & Hdev & Hcols) Hdr.
  pose proof (Z.mod_pos_bound (k - 2) 2 ltac:(lia)) as Hm.
  pose proof (Forall_lookup_1 _ _ _ _ Hogall Hdev) as Hmat. cbv beta in Hmat.
  destruct (chunk2_bounds c deth_pos dethc_pos (k - 2) ltac:(lia))
    as (Hst & Hen & Hs & Hhalf).
  replace (k - 2 + 1) with (k - 1) in * by lia.
  set (st := (k - 2) * dethc c) in *.
  set (en := Z.min (deth c / 2 + 1) ((k - 1) * dethc c)) in *.
  destruct (drain2_rows c dethc_pos ((k - 2) mod 2) st en (Z.to_nat (n1 c)) 0 σ σ dev)
    as (σ' & Hr & Hog' & Hig' & Hlen' & Hrows'); try assumption; try lia;
    try reflexivity.
  { destruct Hout. lia. }
  { intros r row d Hrow Hd. rewrite Hrow.
    destruct (Z.ltb_spec (Z.of_nat r) 0); [lia|reflexivity]. }
  assert (forall r row d, out_host2 σ !! r = Some row -> dev !! r = Some d ->
            out_host2 σ' !! r = Some (drained_row st en row d)) as Hrows.
  { intros r row d Hrow Hd. rewrite (Hrows' r row d Hrow Hd).
    apply lookup_lt_Some in Hrow. destruct Hout as [Hl _].
    destruct (Z.ltb_spec (Z.of_nat r) (0 + Z.of_nat (Z.to_nat (n1 c))));
      [reflexivity|lia]. }
  clear Hrows'.
  assert (forall r row', out_host2 σ' !! r = Some row' ->
            exists row d, out_host2 σ !! r = Some row /\ dev !! r = Some d
              /\ row' = drained_row st en row d
              /\ Z.of_nat (length row) = deth c / 2 + 1
              /\ Z.of_nat (length d) = dethc c) as Hinv.
  { intros r row' Hrow'. apply lookup_lt_Some in Hrow' as Hlt.
    destruct (lookup_lt_is_Some_2 (out_host2 σ) r ltac:(lia)) as [row Hrow].
    destruct (lookup_lt_is_Some_2 dev r) as [d Hd].
    { destruct Hmat as [Hl _]. destruct Hout as [Hl' _]. lia. }
    exists row, d. rewrite (Hrows r row d Hrow Hd) in Hrow'.
    split; [exact Hrow|]. split; [exact Hd|]. split; [congruence|].
    split; [exact (Forall_lookup_1 _ _ _ _ (proj2 Hout) Hrow)|].
    exact (Forall_lookup_1 _ _ _ _ (proj2 Hmat) Hd). }
  exists σ'. split.
  { unfold drain2, range. rewrite (proj1 Hout).
    rewrite Z2Nat.id in Hr by (destruct Hout; lia). exact Hr. }
  split; [|split; [|split; assumption]].
  - split; [|rewrite Hog', Hig'; repeat split; assumption].
    split; [destruct Hout; lia|].
    apply Forall_lookup_2. intros r row' Hrow'.
    destruct (Hinv r row' Hrow') as (row & d & _ & _ & -> & Hrl & Hdl).
    rewrite drained_row_length by lia. exact Hrl.
  - intros m Hm'. replace (Z.min (deth c / 2 + 1) ((k - 1) * dethc c)) with en in Hm' by reflexivity.
    assert (m < st \/ st <= m) as [Hlt|Hge] by lia.
    + destruct (Hdr m) as (P & M & HP & HM & Hcol).
      { fold st. lia. }
      exists P, M. split; [exact HP|]. split; [exact HM|].
      rewrite <- Hcol. apply column_transfer.
      apply Forall2_same_length_lookup_2; [exact Hlen'|].
      intros r row' row0 Hrow' Hrow0.
      destruct (Hinv r row' Hrow') as (row & d & Hrow & _ & -> & Hrl & Hdl).
      assert (row0 = row) as -> by congruence.
      rewrite !py_index_in_range by (rewrite ?drained_row_length; lia).
      unfold drained_row.
      rewrite lookup_app_l by (rewrite length_take; lia).
      apply lookup_take_lt. lia.
    + destruct (Hcols (m - st)) as (P & M & HP & HM & Hcol).
      { fold st en. lia. }
      fold st in HP, HM, Hcol.
      replace (st + (m - st)) with m in * by lia.
      exists P, M. split; [exact HP|]. split; [exact HM|].
      rewrite <- Hcol. apply column_transfer.
      apply Forall2_same_length_lookup_2.
      { destruct Hmat as [Hl _]. destruct Hout as [Hl' _]. lia. }
      intros r row' d0 Hrow' Hd0.
      destruct (Hinv r row' Hrow') as (row & d & Hrow & Hd & -> & Hrl & Hdl).
      assert (d0 = d) as -> by congruence.
      rewrite !py_index_in_range by (rewrite ?drained_row_length; lia).
      unfold drained_row.
      rewrite lookup_app_r by (rewrite length_take; lia).
      rewrite length_take.
      rewrite lookup_app_l by (rewrite length_take; lia).
      rewrite lookup_take_lt by lia. f_equal. lia.
Qed.

Lemma fill2_step (k : Z) (σ : bufs2 X Y) :
  0 <= k < nchunk (deth c / 2 + 1) (dethc c) -> shaped2 c σ ->
  exists σ',
    fill2 c inp k (k mod 2) (k * dethc c)
      (Z.min (deth c / 2 + 1) ((k + 1) * dethc c))
      (Z.min (deth c / 2 + 1) ((k + 1) * dethc c) - k * dethc c) σ = Some σ'
    /\ shaped2 c σ' /\ filled2 k σ'
    /\ out_host2 σ' = out_host2 σ /\ out_gpu2 σ' = out_gpu2 σ.
Proof.
  intros Hk (Hout & Hoglen & Hogall & Higlen & Higall).
  pose proof (Z.mod_pos_bound k 2 ltac:(lia)) as Hm.
  destruct (lookup_lt_is_Some_2 (inp_gpu2 σ) (Z.to_nat (k mod 2)) ltac:(lia))
    as [dev Hdev].
  pose proof (Forall_lookup_1 _ _ _ _ Higall Hdev) as Hmat. cbv beta in Hmat.
  destruct inp_ok as [Hinplen _].
  destruct (fill2_rows c inp deth_pos dethc_pos inp_ok k (Z.to_nat (ntheta c)) 0 σ dev)
    as (σ' & dev' & Hr & Ho & Hog & Hig & Hmat' & Hrows); try assumption; try lia.
  { intros j src Hj. lia. }
  exists σ'. split.
  { unfold fill2, range. rewrite Hinplen.
    rewrite Z2Nat.id in Hr by lia. exact Hr. }
  split; [|split; [|split; assumption]].
  - unfold shaped2. rewrite Ho, Hog, Hig. split; [exact Hout|]. split; [exact Hoglen|].
    split; [exact Hogall|]. split; [rewrite length_insert; exact Higlen|].
    apply Forall_insert; assumption.
  - exists dev'. split.
    + rewrite Hig. apply list_lookup_insert_eq. lia.
    + rewrite Z2Nat.id in Hrows by lia. exact Hrows.
Qed.

Lemma pipe2_step (k : Z) (σ : bufs2 X Y) :
  0 <= k < nchunk (deth c / 2 + 1) (dethc c) + 2 -> pipe2_inv k σ ->
  exists σ',
    run_step (usfft2d_exec c inp usfft2d_adj) σ
      (iter_step (deth c / 2 + 1) (dethc c) k) = Some σ'
    /\ pipe2_inv (k + 1) σ'.
Proof.
  intros Hk (Hsh & Hfill & Hcomp & Hdr).
  set (N := nchunk (deth c / 2 + 1) (dethc c)) in *.
  (* compute *)
  assert (exists σ1,
    run_step (usfft2d_exec c inp usfft2d_adj) σ
      (if (0 <? k) && (k <? N + 1)
       then [Submit Stream2 (Compute (k - 1) ((k - 1) mod 2))] else [])
    = Some σ1
    /\ shaped2 c σ1
    /\ (1 <= k <= N -> computed2 (k - 1) σ1)
    /\ (2 <= k <= N + 1 -> computed2 (k - 2) σ1)
    /\ (2 <= k -> drained2 (k - 2) σ1)) as (σ1 & Hr1 & Hsh1 & Hc1 & Hc1' & Hd1).
  { destruct (Z.ltb_spec 0 k), (Z.ltb_spec k (N + 1)); cbn [andb];
      try (exists σ; split; [reflexivity|];
           split; [exact Hsh|]; split; [lia|]; split; assumption).
    destruct (compute2_step k σ ltac:(lia) Hsh (Hfill ltac:(lia)))
      as (σ1 & Hrun & Hsh1 & Hc1 & Hout & Hother & Hig).
    exists σ1. cbn. rewrite Hrun. cbn. split; [reflexivity|].
    split; [exact Hsh1|]. split; [intros _; exact Hc1|]. split.
    - intros Hk2. destruct (Hcomp Hk2) as (dev & Hdev & Hv).
      exists dev. split; [|exact Hv]. rewrite Hother; [exact Hdev|].
      clear. divlia.
    - intros Hk2 m Hm. rewrite Hout. exact (Hdr Hk2 m Hm). }
  (* device to host *)
  assert (exists σ2,
    run_step (usfft2d_exec c inp usfft2d_adj) σ1
      (if 1 <? k
       then [Submit Stream3
               (Drain (k - 2) ((k - 2) mod 2) ((k - 2) * dethc c)
                  (Z.min (deth c / 2 + 1) ((k - 1) * dethc c))
                  (Z.min (deth c / 2 + 1) ((k - 1) * dethc c) - (k - 2) * dethc c))]
       else [])
    = Some σ2
    /\ shaped2 c σ2 /\ (1 <= k -> drained2 (k - 1) σ2)
    /\ out_gpu2 σ2 = out_gpu2 σ1 /\ inp_gpu2 σ2 = inp_gpu2 σ1)
    as (σ2 & Hr2 & Hsh2 & Hd2 & Hog2 & Hig2).
  { destruct (Z.ltb_spec 1 k).
    - destruct (drain2_step k σ1 ltac:(lia) Hsh1 (Hc1' ltac:(lia)) (Hd1 ltac:(lia)))
        as (σ2 & Hrun & Hsh2 & Hd2 & Hog & Hig).
      exists σ2. cbn. rewrite Hrun. cbn. split; [reflexivity|].
      split; [exact Hsh2|]. split; [intros _; exact Hd2|]. split; assumption.
    - exists σ1. split; [reflexivity|]. split; [exact Hsh1|].
      split; [|split; reflexivity].
      intros Hk1 m Hm. assert (k = 1) as -> by lia. lia. }
  (* host to device *)
  assert (exists σ3,
    run_step (usfft2d_exec c inp usfft2d_adj) σ2
      (if k <? N
       then [Submit Stream1
               (Fill k (k mod 2) (k * dethc c)
                  (Z.min (deth c / 2 + 1) ((k + 1) * dethc c))
                  (Z.min (deth c / 2 + 1) ((k + 1) * dethc c) - k * dethc c))]
       else [])
    = Some σ3
    /\ shaped2 c σ3 /\ (k < N -> filled2 k σ3)
    /\ out_host2 σ3 = out_host2 σ2 /\ out_gpu2 σ3 = out_gpu2 σ2)
    as (σ3 & Hr3 & Hsh3 & Hf3 & Ho3 & Hog3).
  { destruct (Z.ltb_spec k N).
    - destruct (fill2_step k σ2 ltac:(lia) Hsh2) as (σ3 & Hrun & Hsh3 & Hf & Ho & Hog).
      exists σ3. cbn. rewrite Hrun. cbn. split; [reflexivity|].
      split; [exact Hsh3|]. split; [intros _; exact Hf|]. split; assumption.
    - exists σ2. split; [reflexivity|]. split; [exact Hsh2|].
      split; [lia|]. split; reflexivity. }
  exists σ3. split.
  - unfold iter_step. cbv zeta. fold N. unfold run_step in *.
    rewrite foldM_app, Hr1. cbn [mbind option_bind].
    rewrite foldM_app, Hr2. cbn [mbind option_bind].
    rewrite foldM_app, Hr3. reflexivity.
  - split; [exact Hsh3|]. split; [|split].
    + intros Hk'. replace (k + 1 - 1) with k by lia. apply Hf3. lia.
    + intros Hk'. replace (k + 1 - 2) with (k - 1) by lia.
      destruct (Hc1 ltac:(lia)) as (dev & Hdev & Hv).
      exists dev. split; [|exact Hv]. rewrite Hog3, Hog2. exact Hdev.
    + intros Hk' m Hm. replace (k + 1 - 2) with (k - 1) in Hm by lia.
      rewrite Ho3. apply Hd2; lia.
Qed.

Lemma pipe2_prefix (k : Z) (σ : bufs2 X Y) :
  0 <= k <= nchunk (deth c / 2 + 1) (dethc c) + 2 -> shaped2 c σ ->
  exists σk,
    run_schedule (usfft2d_exec c inp usfft2d_adj)
      (take (Z.to_nat k) (schedule c Usfft2d)) σ = Some σk
    /\ pipe2_inv k σk.
Proof.
  intros Hk Hsh.
  apply (schedule_prefix (usfft2d_exec c inp usfft2d_adj)
           (deth c / 2 + 1) (dethc c) pipe2_inv pipe2_step k σ Hk).
  split; [exact Hsh|]. repeat split; intros; lia.
Qed.
End SecondAxisPipeline.

(** ** The schedule of every chunk iterator *)

Lemma iter_step_submits (L C k : Z) (q : stream) (w : work) :
  In (Submit q w) (iter_step L C k) <->
  (q = Stream2 /\ 0 < k < nchunk L C + 1
   /\ w = Compute (k - 1) ((k - 1) mod 2))
  \/ (q = Stream3 /\ 1 < k
      /\ w = Drain (k - 2) ((k - 2) mod 2) ((k - 2) * C) (Z.min L ((k - 1) * C))
               (Z.min L ((k - 1) * C) - (k - 2) * C))
  \/ (q = Stream1 /\ k < nchunk L C
      /\ w = Fill k (k mod 2) (k * C) (Z.min L ((k + 1) * C))
               (Z.min L ((k + 1) * C) - k * C)).
Proof.
  unfold iter_step. rewrite !in_app_iff.
  destruct (Z.ltb_spec 0 k), (Z.ltb_spec k (nchunk L C + 1)),
    (Z.ltb_spec 1 k), (Z.ltb_spec k (nchunk L C)); cbn;
    split; intros Hin;
    repeat match goal with
      | H : _ \/ _ |- _ => destruct H
      | H : _ /\ _ |- _ => destruct H
      | H : False |- _ => destruct H
      | H : Submit _ _ = Submit _ _ |- _ => injection H as <- <-
      | H : Synchronize _ = Submit _ _ |- _ => discriminate H
      end; subst; try lia; auto 10.
Qed.

(** The steps of a schedule: which work each step submits, the barrier
    that ends it, and in which step each phase of a chunk is submitted. *)
Lemma schedule_structure (c : cl_conf) (it : iterator) :
  0 <= axis_length c it -> 0 < chunk_size c it ->
  let L := axis_length c it in
  let C := chunk_size c it in
  let N := ceil_div L C in
  (N - 1) * C < L <= N * C
  /\ length (schedule c it) = Z.to_nat (N + 2)
  /\ (forall k, 0 <= k < N + 2 ->
        exists step subs,
          schedule c it !! Z.to_nat k = Some step
          /\ (forall w, In (Submit Stream2 w) step <->
                0 < k < N + 1 /\ w = Compute (k - 1) ((k - 1) mod 2))
          /\ (forall w, In (Submit Stream3 w) step <->
                1 < k /\ w = Drain (k - 2) ((k - 2) mod 2) ((k - 2) * C)
                               (Z.min L ((k - 1) * C))
                               (Z.min L ((k - 1) * C) - (k - 2) * C))
          /\ (forall w, In (Submit Stream1 w) step <->
                k < N /\ w = Fill k (k mod 2) (k * C) (Z.min L ((k + 1) * C))
                               (Z.min L ((k + 1) * C) - k * C))
          /\ step = subs ++ [Synchronize Stream1; Synchronize Stream2;
                             Synchronize Stream3]
          /\ (forall q, ~ In (Synchronize q) subs)
          /\ (forall ch, 0 <= ch < N ->
                submissions PFill ch step = (if k =? ch then 1%nat else 0%nat)
                /\ submissions PCompute ch step
                   = (if k =? ch + 1 then 1%nat else 0%nat)
                /\ submissions PDrain ch step
                   = (if k =? ch + 2 then 1%nat else 0%nat)))
  /\ (forall ch, 0 <= ch < N ->
        submissions PFill ch (concat (schedule c it)) = 1%nat
        /\ submissions PCompute ch (concat (schedule c it)) = 1%nat
        /\ submissions PDrain ch (concat (schedule c it)) = 1%nat).
Proof.
  intros HL HC L C N. subst L C N. unfold schedule.
  set (L := axis_length c it) in *. set (C := chunk_size c it) in *.
  fold (nchunk L C).
  split; [apply ceil_div_spec; exact HC|].
  split; [apply iter_schedule_length|]. split.
  - intros k Hk.
    exists (iter_step L C k).
    exists ((if (0 <? k) && (k <? nchunk L C + 1)
             then [Submit Stream2 (Compute (k - 1) ((k - 1) mod 2))] else [])
            ++ (if 1 <? k
                then [Submit Stream3
                        (Drain (k - 2) ((k - 2) mod 2) ((k - 2) * C)
                           (Z.min L ((k - 1) * C))
                           (Z.min L ((k - 1) * C) - (k - 2) * C))]
                else [])
            ++ (if k <? nchunk L C
                then [Submit Stream1
                        (Fill k (k mod 2) (k * C) (Z.min L ((k + 1) * C))
                           (Z.min L ((k + 1) * C) - k * C))]
                else [])).
    split; [apply iter_schedule_lookup; exact Hk|].
    split; [|split; [|split; [|split; [|split]]]].
    + intros w. rewrite iter_step_submits.
      split; [intros [(_ & ? & ?)|[(? & _)|(? & _)]]; try discriminate; auto|].
      intros [? ?]. left. auto.
    + intros w. rewrite iter_step_submits.
      split; [intros [(? & _)|[(_ & ? & ?)|(? & _)]]; try discriminate; auto|].
      intros [? ?]. right. left. auto.
    + intros w. rewrite iter_step_submits.
      split; [intros [(? & _)|[(? & _)|(_ & ? & ?)]]; try discriminate; auto|].
      intros [? ?]. right. right. auto.
    + unfold iter_step. cbv zeta. rewrite <- !app_assoc. reflexivity.
    + intros q. rewrite !in_app_iff.
      destruct ((0 <? k) && (k <? nchunk L C + 1)), (1 <? k), (k <? nchunk L C);
        cbn; intros Hin;
        repeat match goal with
          | H : _ \/ _ |- _ => destruct H
          | H : False |- _ => destruct H
          | H : Submit _ _ = Synchronize _ |- _ => discriminate H
          end.
    + intros ch Hch. apply submissions_step. exact Hch.
  - intros ch Hch. repeat split; apply submissions_schedule; exact Hch.
Qed.

(** ** The compute blocks, in the form the pipeline lemmas use *)

Section ComputeBlocks.
Context {A B : Type}.

Lemma usfft1d_compute_ok (K : list A -> list B) (slot : Z) (σ : bufs A B) src :
  0 <= slot < 2 ->
  length (out_gpu σ) = 2%nat -> length (inp_gpu σ) = 2%nat ->
  inp_gpu σ !! Z.to_nat slot = Some src ->
  usfft1d_compute K slot σ
  = Some (Bufs (out_host σ) (<[Z.to_nat slot := K src]> (out_gpu σ))
               (<[Z.to_nat slot := src]> (inp_gpu σ))).
Proof.
  intros Hslot Hog Hig Hsrc. unfold usfft1d_compute.
  rewrite (py_index_in_range (inp_gpu σ) slot) by lia. rewrite Hsrc. cbn.
  rewrite (py_set_index_in_range (out_gpu σ) slot) by lia. cbn.
  rewrite (list_insert_id _ _ _ Hsrc). reflexivity.
Qed.

Lemma fft2_compute_ok (filter_center : list A -> option (list A))
    (F : list A -> list A) (fft2d_fwd : list A -> list B)
    (slot : Z) (σ : bufs A B) src :
  (forall l, filter_center l = Some (F l)) ->
  0 <= slot < 2 ->
  length (out_gpu σ) = 2%nat -> length (inp_gpu σ) = 2%nat ->
  inp_gpu σ !! Z.to_nat slot = Some src ->
  fft2_compute filter_center fft2d_fwd slot σ
  = Some (Bufs (out_host σ) (<[Z.to_nat slot := fft2d_fwd (F src)]> (out_gpu σ))
               (<[Z.to_nat slot := F src]> (inp_gpu σ))).
Proof.
  intros HF Hslot Hog Hig Hsrc. unfold fft2_compute.
  rewrite (py_index_in_range (inp_gpu σ) slot) by lia. rewrite Hsrc. cbn.
  rewrite HF. cbn.
  rewrite (py_set_index_in_range (inp_gpu σ) slot) by lia. cbn.
  rewrite (py_set_index_in_range (out_gpu σ) slot) by lia. reflexivity.
Qed.

Lemma usfft1d_exec_pipe (inp : list A) (K : list A -> list B) w σ :
  usfft1d_exec inp K w σ = pipe_exec inp (usfft1d_compute K) w σ.
Proof. destruct w; reflexivity. Qed.

Lemma fft2_exec_pipe (inp : list A) filter_center (fft2d_fwd : list A -> list B) w σ :
  fft2_exec inp filter_center fft2d_fwd w σ
  = pipe_exec inp (fft2_compute filter_center fft2d_fwd) w σ.
Proof. destruct w; reflexivity. Qed.

(** The first [k] steps of [usfft1d_chunks]. *)
Lemma usfft1d_prefix (c : cl_conf) (inp : list A) (K : list A -> list B)
    (σ : bufs A B) (k : Z) :
  0 < n1c c -> Z.of_nat (length inp) = n1 c -> shaped (n1 c) (n1c c) σ ->
  slicing_kernel K ->
  0 <= k <= nchunk (n1 c) (n1c c) + 2 ->
  exists σk,
    run_schedule (usfft1d_exec inp K) (take (Z.to_nat k) (schedule c Usfft1d)) σ
    = Some σk
    /\ pipe_inv inp (n1 c) (n1c c) K k σk.
Proof.
  intros HC Hinp Hsh [Klen Kslice] Hk.
  destruct (pipe_prefix inp (n1 c) (n1c c) (usfft1d_compute K) K (fun l => l)
              Hinp HC Klen (K_take K Kslice) (K_drop K Kslice)
              ltac:(reflexivity) (usfft1d_compute_ok K) k σ Hk Hsh)
    as (σk & Hr & Hinv).
  exists σk. split; [|exact Hinv].
  rewrite <- Hr. apply run_schedule_ext. apply usfft1d_exec_pipe.
Qed.

(** The first [k] steps of [fft2_chunks]. *)
Lemma fft2_prefix (c : cl_conf) (inp : list A)
    (filter_center : list A -> option (list A)) (F : list A -> list A)
    (fft2d_fwd : list A -> list B) (σ : bufs A B) (k : Z) :
  0 < nthetac c -> Z.of_nat (length inp) = ntheta c ->
  shaped (ntheta c) (nthetac c) σ ->
  (forall l, filter_center l = Some (F l)) ->
  slicing_kernel F -> slicing_kernel fft2d_fwd ->
  0 <= k <= nchunk (ntheta c) (nthetac c) + 2 ->
  exists σk,
    run_schedule (fft2_exec inp filter_center fft2d_fwd)
      (take (Z.to_nat k) (schedule c Fft2)) σ = Some σk
    /\ pipe_inv inp (ntheta c) (nthetac c) (fun l => fft2d_fwd (F l)) k σk.
Proof.
  intros HC Hinp Hsh HF [Flen Fslice] [Wlen Wslice] Hk.
  set (K := fun l => fft2d_fwd (F l)).
  assert (forall l, length (K l) = length l) as Klen
    by (intros l; unfold K; rewrite Wlen; apply Flen).
  assert (forall a b l, K (py_slice a b l) = py_slice a b (K l)) as Kslice
    by (intros a b l; unfold K; rewrite Fslice; apply Wslice).
  destruct (pipe_prefix inp (ntheta c) (nthetac c)
              (fft2_compute filter_center fft2d_fwd) K F
              Hinp HC Klen (K_take K Kslice) (K_drop K Kslice) Flen
              (fun slot τ src => fft2_compute_ok filter_center F fft2d_fwd slot τ src HF)
              k σ Hk Hsh)
    as (σk & Hr & Hinv).
  exists σk. split; [|exact Hinv].
  rewrite <- Hr. apply run_schedule_ext. apply fft2_exec_pipe.
Qed.
End ComputeBlocks.

(** Element-wise kernels commute with slicing. *)
Lemma py_slice_map {X Y : Type} (f : X -> Y) (a b : option Z) (l : list X) :
  map f (py_slice a b l) = py_slice a b (map f l).
Proof.
  unfold py_slice. rewrite length_map.
  change (map f) with (fmap (M:=list) f). rewrite fmap_take, fmap_drop.
  reflexivity.
Qed.

Lemma slicing_kernel_map {X Y : Type} (f : X -> Y) : slicing_kernel (map f).
Proof.
  split; [intros l; apply length_map|].
  intros a b l. apply py_slice_map.
Qed.

(** ** The three chunk iterators as pipelines *)

Lemma axis_length_nonneg (c : cl_conf) (it : iterator) :
  0 <= n c -> 0 <= nproj c -> 0 < nz c -> 0 <= axis_length c it.
Proof. intros Hn Hp Hz. destruct it; unfold axis_length, n1, ntheta, deth; divlia. Qed.

Lemma chunk_size_pos (c : cl_conf) (it : iterator) :
  0 < ncz c -> 0 < ncproj c -> 0 < chunk_size c it.
Proof. intros Hz Hp. destruct it; unfold chunk_size, n1c, dethc, nthetac; lia. Qed.

Lemma take_schedule_all (c : cl_conf) (it : iterator) :
  take (Z.to_nat (nchunk (axis_length c it) (chunk_size c it) + 2)) (schedule c it)
  = schedule c it.
Proof.
  apply take_ge. unfold schedule. rewrite iter_schedule_length. lia.
Qed.

(** C2. Every chunk iterator runs the steps [k = 0 .. nchunk+1] with
    [nchunk = ceil(axis_length / C)].  Step [k] submits the compute of chunk
    [k-1] exactly when [0 < k < nchunk+1], the device-to-host copy of chunk
    [k-2] exactly when [k > 1] and the host-to-device copy of chunk [k]
    exactly when [k < nchunk], and ends with the synchronisation of the
    three streams; each phase of each chunk is submitted exactly once.  On
    buffers of the configured shapes the run of every prefix of the loop
    succeeds, and after [k] steps chunk [k-1] of the source is in device
    source slot [(k-1)%2], the transform of chunk [k-2] is in device
    destination slot [(k-2)%2], and the transforms of the chunks before
    [k-2] are in the host destination: every chunk is filled, then
    computed, then drained, and the whole run ends in that state for
    [k = nchunk+2]. *)
Theorem pipeline_runs (c : cl_conf) :
  0 <= n c -> 0 <= nproj c -> 0 < nz c -> 0 < ncz c -> 0 < ncproj c ->
  (forall it : iterator,
     let L := axis_length c it in
     let C := chunk_size c it in
     let N := ceil_div L C in
     (N - 1) * C < L <= N * C
     /\ length (schedule c it) = Z.to_nat (N + 2)
     /\ (forall k, 0 <= k < N + 2 ->
           exists step subs,
             schedule c it !! Z.to_nat k = Some step
             /\ (forall w, In (Submit Stream2 w) step <->
                   0 < k < N + 1 /\ w = Compute (k - 1) ((k - 1) mod 2))
             /\ (forall w, In (Submit Stream3 w) step <->
                   1 < k /\ w = Drain (k - 2) ((k - 2) mod 2) ((k - 2) * C)
                                  (Z.min L ((k - 1) * C))
                                  (Z.min L ((k - 1) * C) - (k - 2) * C))
             /\ (forall w, In (Submit Stream1 w) step <->
                   k < N /\ w = Fill k (k mod 2) (k * C) (Z.min L ((k + 1) * C))
                                  (Z.min L ((k + 1) * C) - k * C))
             /\ step = subs ++ [Synchronize Stream1; Synchronize Stream2;
                                Synchronize Stream3]
             /\ (forall q, ~ In (Synchronize q) subs)
             /\ (forall ch, 0 <= ch < N ->
                   submissions PFill ch step = (if k =? ch then 1%nat else 0%nat)
                   /\ submissions PCompute ch step
                      = (if k =? ch + 1 then 1%nat else 0%nat)
                   /\ submissions PDrain ch step
                      = (if k =? ch + 2 then 1%nat else 0%nat)))
     /\ (forall ch, 0 <= ch < N ->
           submissions PFill ch (concat (schedule c it)) = 1%nat
           /\ submissions PCompute ch (concat (schedule c it)) = 1%nat
           /\ submissions PDrain ch (concat (schedule c it)) = 1%nat))
  /\ (forall (A B : Type) (inp : list A) (K : list A -> list B) (σ : bufs A B),
        Z.of_nat (length inp) = n1 c -> shaped (n1 c) (n1c c) σ ->
        slicing_kernel K ->
        (forall k, 0 <= k <= nchunk (n1 c) (n1c c) + 2 ->
           exists σk,
             run_schedule (usfft1d_exec inp K)
               (take (Z.to_nat k) (schedule c Usfft1d)) σ = Some σk
             /\ pipe_inv inp (n1 c) (n1c c) K k σk)
        /\ exists σ', usfft1d_chunks inp K c σ = Some σ'
             /\ pipe_inv inp (n1 c) (n1c c) K (nchunk (n1 c) (n1c c) + 2) σ')
  /\ (forall (X Y : Type) (inp : list (list X))
             (usfft2d_adj : Z -> list (list X) -> list (list Y))
             (g : Z -> list X -> list X -> list Y) (σ : bufs2 X Y),
        matrix (ntheta c) (deth c) inp -> shaped2 c σ ->
        frequencywise c g usfft2d_adj ->
        (forall k, 0 <= k <= nchunk (deth c / 2 + 1) (dethc c) + 2 ->
           exists σk,
             run_schedule (usfft2d_exec c inp usfft2d_adj)
               (take (Z.to_nat k) (schedule c Usfft2d)) σ = Some σk
             /\ pipe2_inv c inp g k σk)
        /\ exists σ', usfft2d_chunks c inp usfft2d_adj σ = Some σ'
             /\ pipe2_inv c inp g (nchunk (deth c / 2 + 1) (dethc c) + 2) σ')
  /\ (forall (A B : Type) (inp : list A)
             (filter_center : list A -> option (list A)) (F : list A -> list A)
             (fft2d_fwd : list A -> list B) (σ : bufs A B),
        Z.of_nat (length inp) = ntheta c -> shaped (ntheta c) (nthetac c) σ ->
        (forall l, filter_center l = Some (F l)) ->
        slicing_kernel F -> slicing_kernel fft2d_fwd ->
        (forall k, 0 <= k <= nchunk (ntheta c) (nthetac c) + 2 ->
           exists σk,
             run_schedule (fft2_exec inp filter_center fft2d_fwd)
               (take (Z.to_nat k) (schedule c Fft2)) σ = Some σk
             /\ pipe_inv inp (ntheta c) (nthetac c) (fun l => fft2d_fwd (F l)) k σk)
        /\ exists σ', fft2_chunks inp filter_center fft2d_fwd c σ = Some σ'
             /\ pipe_inv inp (ntheta c) (nthetac c) (fun l => fft2d_fwd (F l))
                  (nchunk (ntheta c) (nthetac c) + 2) σ').
Proof.
  intros Hn Hp Hz Hcz Hcp.
  assert (forall it, 0 <= nchunk (axis_length c it) (chunk_size c it)) as HN.
  { intros it. apply ceil_div_nonneg;
      [apply axis_length_nonneg|apply chunk_size_pos]; assumption. }
  split; [|split; [|split]].
  - intros it. apply schedule_structure;
      [apply axis_length_nonneg|apply chunk_size_pos]; assumption.
  - intros A B inp K σ Hinp Hsh HK.
    assert (forall k, 0 <= k <= nchunk (n1 c) (n1c c) + 2 ->
              exists σk,
                run_schedule (usfft1d_exec inp K)
                  (take (Z.to_nat k) (schedule c Usfft1d)) σ = Some σk
                /\ pipe_inv inp (n1 c) (n1c c) K k σk) as Hpre
      by (intros k Hk; apply usfft1d_prefix; assumption).
    split; [exact Hpre|].
    destruct (Hpre (nchunk (n1 c) (n1c c) + 2)) as (σ' & Hr & Hinv).
    { specialize (HN Usfft1d). cbn in HN. lia. }
    exists σ'. split; [|exact Hinv].
    pose proof (take_schedule_all c Usfft1d) as E. cbn [axis_length chunk_size] in E.
    rewrite E in Hr. exact Hr.
  - intros X Y inp K2 g σ Hinp Hsh HK.
    assert (forall k, 0 <= k <= nchunk (deth c / 2 + 1) (dethc c) + 2 ->
              exists σk,
                run_schedule (usfft2d_exec c inp K2)
                  (take (Z.to_nat k) (schedule c Usfft2d)) σ = Some σk
                /\ pipe2_inv c inp g k σk) as Hpre
      by (intros k Hk; apply pipe2_prefix; assumption).
    split; [exact Hpre|].
    destruct (Hpre (nchunk (deth c / 2 + 1) (dethc c) + 2)) as (σ' & Hr & Hinv).
    { specialize (HN Usfft2d). cbn in HN. lia. }
    exists σ'. split; [|exact Hinv].
    pose proof (take_schedule_all c Usfft2d) as E. cbn [axis_length chunk_size] in E.
    rewrite E in Hr. exact Hr.
  - intros A B inp fc F W σ Hinp Hsh HF HFs HWs.
    assert (forall k, 0 <= k <= nchunk (ntheta c) (nthetac c) + 2 ->
              exists σk,
                run_schedule (fft2_exec inp fc W)
                  (take (Z.to_nat k) (schedule c Fft2)) σ = Some σk
                /\ pipe_inv inp (ntheta c) (nthetac c) (fun l => W (F l)) k σk) as Hpre
      by (intros k Hk; apply fft2_prefix; assumption).
    split; [exact Hpre|].
    destruct (Hpre (nchunk (ntheta c) (nthetac c) + 2)) as (σ' & Hr & Hinv).
    { specialize (HN Fft2). cbn in HN. lia. }
    exists σ'. split; [|exact Hinv].
    pose proof (take_schedule_all c Fft2) as E. cbn [axis_length chunk_size] in E.
    rewrite E in Hr. exact Hr.
Qed.

Lemma pipeline_runs_witness :
  let c := {| rh := 1; n := 3; nz := 5; nproj := 3; ncproj := 2; ncz := 2 |} in
  let K := map (Z.mul 2) in
  let σ := Bufs [0; 0; 0] [[0; 0]; [0; 0]] [[0; 0]; [0; 0]] in
  (exists σ', usfft1d_chunks [1; 2; 3] K c σ = Some σ'
     /\ pipe_inv [1; 2; 3] (n1 c) (n1c c) K (nchunk (n1 c) (n1c c) + 2) σ')
  /\ (exists σ', fft2_chunks [1; 2; 3] (fun l => Some (map Z.succ l)) K c σ = Some σ'
        /\ pipe_inv [1; 2; 3] (ntheta c) (nthetac c)
             (fun l => K (map Z.succ l)) (nchunk (ntheta c) (nthetac c) + 2) σ').
Proof.
  intros c K σ.
  destruct (pipeline_runs c ltac:(cbn; lia) ltac:(cbn; lia) ltac:(cbn; lia)
              ltac:(cbn; lia) ltac:(cbn; lia)) as (_ & H1 & _ & H3).
  assert (shaped 3 2 σ) as Hsh.
  { unfold shaped, slots_ok. cbn. repeat split; repeat constructor. }
  split.
  - exact (proj2 (H1 Z Z [1; 2; 3] K σ eq_refl Hsh (slicing_kernel_map _))).
  - exact (proj2 (H3 Z Z [1; 2; 3] (fun l => Some (map Z.succ l)) (map Z.succ) K σ
                    eq_refl Hsh (fun l => eq_refl)
                    (slicing_kernel_map _) (slicing_kernel_map _))).
Defined.

(** ** Footprints of the work of one step (leading-axis iterators) *)

Section Footprint.
Context {A B : Type}.
Variables (inp : list A) (L C : Z).
Variable compute : Z -> bufs A B -> option (bufs A B).
Variables (T : list A -> list B) (G : list A -> list A).
Hypothesis inp_length : Z.of_nat (length inp) = L.
Hypothesis C_pos : 0 < C.
Hypothesis T_length : forall l, length (T l) = length l.
Hypothesis G_length : forall l, length (G l) = length l.
Hypothesis compute_ok : forall slot σ src,
  0 <= slot < 2 ->
  length (out_gpu σ) = 2%nat -> length (inp_gpu σ) = 2%nat ->
  inp_gpu σ !! Z.to_nat slot = Some src ->
  compute slot σ
  = Some (Bufs (out_host σ) (<[Z.to_nat slot := T src]> (out_gpu σ))
               (<[Z.to_nat slot := G src]> (inp_gpu σ))).

Lemma slot_lookup {X : Type} (d : list (list X)) (k : Z) :
  slots_ok C d ->
  exists s, d !! Z.to_nat (k mod 2) = Some s /\ Z.of_nat (length s) = C.
Proof.
  intros [Hlen Hall].
  assert (0 <= k mod 2 < 2) as Hm by divlia.
  destruct (lookup_lt_is_Some_2 d (Z.to_nat (k mod 2)) ltac:(lia)) as [s Hs].
  exists s. split; [exact Hs|].
  pose proof (Forall_lookup_1 _ _ _ _ Hall Hs) as H. exact H.
Qed.

Lemma bounds (k : Z) :
  0 <= k < nchunk L C ->
  0 <= k * C < Z.min L ((k + 1) * C) /\ Z.min L ((k + 1) * C) <= L
  /\ Z.min L ((k + 1) * C) - k * C <= C.
Proof.
  intros Hk. pose proof (ceil_div_spec L C C_pos) as Hs.
  unfold nchunk in Hk. nia.
Qed.

Lemma compute_footprint (k : Z) (σ : bufs A B) :
  1 <= k <= nchunk L C -> shaped L C σ ->
  exists σ', compute ((k - 1) mod 2) σ = Some σ'
    /\ shaped L C σ' /\ footprint inp L C T G Stream2 k σ σ'.
Proof.
  intros Hk (Hout & Hog & Hig).
  assert (0 <= (k - 1) mod 2 < 2) as Hm by divlia.
  destruct (slot_lookup _ (k - 1) Hig) as (src & Hsrc & Hlen).
  eexists. split; [apply compute_ok; try lia; [apply Hog|apply Hig|exact Hsrc]|].
  split.
  - split; [exact Hout|]. cbn. split.
    + apply slots_ok_insert; [exact Hog|]. rewrite T_length. exact Hlen.
    + apply slots_ok_insert; [exact Hig|]. rewrite G_length. exact Hlen.
  - cbn. split; [reflexivity|]. exists src. auto.
Qed.

Lemma drain_footprint (k : Z) (σ : bufs A B) :
  2 <= k <= nchunk L C + 1 -> shaped L C σ ->
  exists σ',
    drain ((k - 2) mod 2) ((k - 2) * C) (Z.min L ((k - 1) * C))
          (Z.min L ((k - 1) * C) - (k - 2) * C) σ = Some σ'
    /\ shaped L C σ' /\ footprint inp L C T G Stream3 k σ σ'.
Proof.
  intros Hk (Hout & Hog & Hig).
  assert (0 <= (k - 2) mod 2 < 2) as Hm by divlia.
  destruct (bounds (k - 2) ltac:(lia)) as (Hlo & Hhi & Hsz).
  replace (k - 2 + 1) with (k - 1) in * by lia.
  destruct (slot_lookup _ (k - 2) Hog) as (d & Hd & Hlen).
  unfold drain.
  rewrite (py_index_in_range (out_gpu σ)) by (destruct Hog as [-> _]; lia).
  rewrite Hd. cbn. rewrite py_slice_prefix by lia.
  rewrite py_set_slice_range; [|lia|lia|rewrite length_take; lia].
  cbn. eexists. split; [reflexivity|]. split.
  - split; [|split; assumption]. cbn.
    rewrite !length_app, !length_take, length_drop. lia.
  - cbn. split; [reflexivity|]. split; [reflexivity|]. exists d. auto.
Qed.

Lemma fill_footprint (k : Z) (σ : bufs A B) :
  0 <= k < nchunk L C -> shaped L C σ ->
  exists σ',
    fill inp (k mod 2) (k * C) (Z.min L ((k + 1) * C))
         (Z.min L ((k + 1) * C) - k * C) σ = Some σ'
    /\ shaped L C σ' /\ footprint inp L C T G Stream1 k σ σ'.
Proof.
  intros Hk (Hout & Hog & Hig).
  assert (0 <= k mod 2 < 2) as Hm by divlia.
  destruct (bounds k Hk) as (Hlo & Hhi & Hsz).
  destruct (slot_lookup _ k Hig) as (slot & Hslot & Hlen).
  unfold fill.
  rewrite (py_index_in_range (inp_gpu σ)) by (destruct Hig as [-> _]; lia).
  rewrite Hslot. cbn.
  rewrite py_set_slice_prefix; [|lia|rewrite py_slice_range_length; lia].
  cbn. rewrite py_set_index_in_range by (destruct Hig as [-> _]; lia).
  cbn. eexists. split; [reflexivity|]. split.
  - split; [exact Hout|]. split; [exact Hog|]. cbn.
    apply slots_ok_insert; [exact Hig|].
    rewrite length_app, length_drop.
    pose proof (py_slice_range_length inp (k * C) (Z.min L ((k + 1) * C))
                  ltac:(lia) ltac:(lia)). lia.
  - cbn. split; [reflexivity|]. split; [reflexivity|]. exists slot. auto.
Qed.

(** Every piece of work a step submits runs on shaped buffers and has
    the footprint of its stream. *)
Lemma step_footprint (k : Z) (q : stream) (w : work) (σ : bufs A B) :
  In (Submit q w) (iter_step L C k) -> 0 <= k < nchunk L C + 2 ->
  shaped L C σ ->
  exists σ', pipe_exec inp compute w σ = Some σ'
    /\ shaped L C σ' /\ footprint inp L C T G q k σ σ'.
Proof.
  intros Hin Hk Hsh. apply iter_step_submits in Hin.
  destruct Hin as [(-> & Hr & ->)|[(-> & Hr & ->)|(-> & Hr & ->)]]; cbn [pipe_exec].
  - apply compute_footprint; [lia|exact Hsh].
  - apply drain_footprint; [lia|exact Hsh].
  - apply fill_footprint; [lia|exact Hsh].
Qed.

Lemma bufs_eq (σ τ : bufs A B) :
  out_host σ = out_host τ -> out_gpu σ = out_gpu τ -> inp_gpu σ = inp_gpu τ ->
  σ = τ.
Proof. destruct σ, τ. cbn. intros -> -> ->. reflexivity. Qed.

(** Footprints of two different streams commute: the two orders lead to
    the same buffers. *)
Lemma footprint_commute_ordered (q1 q2 : stream) (k : Z)
    (σ σ1 σ12 σ2 σ21 : bufs A B) :
  match q1, q2 with
  | Stream2, Stream3 | Stream2, Stream1 | Stream3, Stream1 => True
  | _, _ => False
  end ->
  footprint inp L C T G q1 k σ σ1 -> footprint inp L C T G q2 k σ1 σ12 ->
  footprint inp L C T G q2 k σ σ2 -> footprint inp L C T G q1 k σ2 σ21 ->
  σ12 = σ21.
Proof.
  assert (Z.to_nat ((k - 1) mod 2) <> Z.to_nat ((k - 2) mod 2)) as Hab by divlia.
  assert (Z.to_nat ((k - 1) mod 2) <> Z.to_nat (k mod 2)) as Haa by divlia.
  destruct q1, q2; intros Hq; try destruct Hq; cbn [footprint].
  - (* compute, fill *)
    intros (Ho1 & src & Hsrc & Hog1 & Hig1) (Ho12 & Hog12 & slot & Hslot & Hig12)
           (Ho2 & Hog2 & slot' & Hslot' & Hig2) (Ho21 & src' & Hsrc' & Hog21 & Hig21).
    rewrite Hig1, list_lookup_insert_ne in Hslot by exact Haa.
    rewrite Hig2, list_lookup_insert_ne in Hsrc' by congruence.
    assert (slot' = slot) as -> by congruence.
    assert (src' = src) as -> by congruence.
    apply bufs_eq; [congruence|congruence|].
    rewrite Hig12, Hig21, Hig1, Hig2.
    apply list_insert_insert_ne. congruence.
  - (* compute, drain *)
    intros (Ho1 & src & Hsrc & Hog1 & Hig1) (Hog12 & Hig12 & d & Hd & Ho12)
           (Hog2 & Hig2 & d' & Hd' & Ho2) (Ho21 & src' & Hsrc' & Hog21 & Hig21).
    rewrite Hog1, list_lookup_insert_ne in Hd by exact Hab.
    rewrite Hig2 in Hsrc'.
    assert (d' = d) as -> by congruence.
    assert (src' = src) as -> by congruence.
    apply bufs_eq; congruence.
  - (* drain, fill *)
    intros (Hog1 & Hig1 & d & Hd & Ho1) (Ho12 & Hog12 & slot & Hslot & Hig12)
           (Ho2 & Hog2 & slot' & Hslot' & Hig2) (Hog21 & Hig21 & d' & Hd' & Ho21).
    rewrite Hig1 in Hslot. rewrite Hog2 in Hd'.
    assert (slot' = slot) as -> by congruence.
    assert (d' = d) as -> by congruence.
    apply bufs_eq; congruence.
Qed.

Lemma step_commute (k : Z) (q1 q2 : stream) (w1 w2 : work) (σ : bufs A B) :
  In (Submit q1 w1) (iter_step L C k) -> In (Submit q2 w2) (iter_step L C k) ->
  q1 <> q2 -> 0 <= k < nchunk L C + 2 -> shaped L C σ ->
  exists τ,
    pipe_exec inp compute w1 σ ≫= pipe_exec inp compute w2 = Some τ
    /\ pipe_exec inp compute w2 σ ≫= pipe_exec inp compute w1 = Some τ.
Proof.
  intros H1 H2 Hq Hk Hsh.
  destruct (step_footprint k q1 w1 σ H1 Hk Hsh) as (σ1 & E1 & Hsh1 & F1).
  destruct (step_footprint k q2 w2 σ1 H2 Hk Hsh1) as (σ12 & E12 & _ & F12).
  destruct (step_footprint k q2 w2 σ H2 Hk Hsh) as (σ2 & E2 & Hsh2 & F2).
  destruct (step_footprint k q1 w1 σ2 H1 Hk Hsh2) as (σ21 & E21 & _ & F21).
  exists σ12. rewrite E1, E2. cbn. rewrite E12, E21. split; [reflexivity|].
  f_equal.
  destruct q1, q2; try congruence;
    first [ symmetry;
            apply (fun H => footprint_commute_ordered _ _ k σ σ1 σ12 σ2 σ21
                              H F1 F12 F2 F21); exact I
          | apply (fun H => footprint_commute_ordered _ _ k σ σ2 σ21 σ1 σ12
                              H F2 F21 F1 F12); exact I ].
Qed.
End Footprint.

(** ** Footprints of the work of one step ([usfft2d_chunks]) *)

Section Frames2.
Context {X Y : Type}.
Variables (c : cl_conf) (inp : list (list X)).

(** The host-to-device block looks at the device source array only. *)
Lemma fill2_row_frame (k slot st en s j : Z) o og ig (σ' : bufs2 X Y) :
  fill2_row c inp k slot st en s (Bufs2 o og ig) j = Some σ' ->
  out_host2 σ' = o /\ out_gpu2 σ' = og
  /\ forall (o2 : list (list Y)) og2,
       fill2_row c inp k slot st en s (Bufs2 o2 og2 ig) j
       = Some (Bufs2 o2 og2 (inp_gpu2 σ')).
Proof.
  unfold fill2_row. cbn [out_host2 out_gpu2 inp_gpu2].
  destruct (py_index j inp) as [src|]; cbn [mbind option_bind]; [|discriminate].
  destruct (set_row_slice slot j None (Some s) _ ig) as [ig1|];
    cbn [mbind option_bind]; [|discriminate].
  set (m := if k =? 0 then _ else _). clearbody m.
  destruct m as [ig2|]; cbn [mbind option_bind]; [|discriminate].
  intros [= <-]. cbn. auto.
Qed.

Lemma fill2_rows_frame (k slot st en s : Z) (js : list Z) o og ig (σ' : bufs2 X Y) :
  foldM (fill2_row c inp k slot st en s) js (Bufs2 o og ig) = Some σ' ->
  out_host2 σ' = o /\ out_gpu2 σ' = og
  /\ forall (o2 : list (list Y)) og2,
       foldM (fill2_row c inp k slot st en s) js (Bufs2 o2 og2 ig)
       = Some (Bufs2 o2 og2 (inp_gpu2 σ')).
Proof.
  revert ig. induction js as [|j js IH]; intros ig; cbn [foldM].
  - intros [= <-]. cbn. auto.
  - destruct (fill2_row c inp k slot st en s (Bufs2 o og ig) j) as [σ1|] eqn:E;
      cbn [mbind option_bind]; [|discriminate].
    destruct (fill2_row_frame _ _ _ _ _ _ _ _ _ _ E) as (Ho & Hog & Hf).
    destruct σ1 as [o1 og1 ig1]. cbn in Ho, Hog, Hf. subst o1 og1.
    intros H. destruct (IH _ H) as (Ho' & Hog' & Hf').
    split; [exact Ho'|]. split; [exact Hog'|].
    intros o2 og2. rewrite Hf. cbn [mbind option_bind]. apply Hf'.
Qed.

Lemma fill2_frame (k slot st en s : Z) o og ig (σ' : bufs2 X Y) :
  fill2 c inp k slot st en s (Bufs2 o og ig) = Some σ' ->
  out_host2 σ' = o /\ out_gpu2 σ' = og
  /\ forall (o2 : list (list Y)) og2,
       fill2 c inp k slot st en s (Bufs2 o2 og2 ig)
       = Some (Bufs2 o2 og2 (inp_gpu2 σ')).
Proof. unfold fill2. apply fill2_rows_frame. Qed.
End Frames2.

(** The buffers after a piece of work of step [k] of [usfft2d_chunks], as
    [footprint] for the leading-axis iterators.  The host-to-device block
    rewrites one slot of the device source array and looks at nothing but
    that array and the host source. *)
Definition footprint2 {X Y : Type} (c : cl_conf) (inp : list (list X))
    (usfft2d_adj : Z -> list (list X) -> list (list Y))
    (q : stream) (k : Z) (σ σ' : bufs2 X Y) : Prop :=
  match q with
  | Stream2 =>
      out_host2 σ' = out_host2 σ /\ inp_gpu2 σ' = inp_gpu2 σ
      /\ exists src, inp_gpu2 σ !! Z.to_nat ((k - 1) mod 2) = Some src
           /\ out_gpu2 σ'
              = <[Z.to_nat ((k - 1) mod 2) := usfft2d_adj (k - 1) src]> (out_gpu2 σ)
  | Stream3 =>
      out_gpu2 σ' = out_gpu2 σ /\ inp_gpu2 σ' = inp_gpu2 σ
      /\ exists d, out_gpu2 σ !! Z.to_nat ((k - 2) mod 2) = Some d
           /\ out_host2 σ'
              = zip_with (drained_row ((k - 2) * dethc c)
                            (Z.min (deth c / 2 + 1) ((k - 1) * dethc c)))
                  (out_host2 σ) d
  | Stream1 =>
      out_host2 σ' = out_host2 σ /\ out_gpu2 σ' = out_gpu2 σ
      /\ exists dev dev', inp_gpu2 σ !! Z.to_nat (k mod 2) = Some dev
           /\ inp_gpu2 σ' = <[Z.to_nat (k mod 2) := dev']> (inp_gpu2 σ)
           /\ rows_filled c inp k (ntheta c) dev'
           /\ forall (o2 : list (list Y)) og2,
                fill2 c inp k (k mod 2) (k * dethc c)
                  (Z.min (deth c / 2 + 1) ((k + 1) * dethc c))
                  (Z.min (deth c / 2 + 1) ((k + 1) * dethc c) - k * dethc c)
                  (Bufs2 o2 og2 (inp_gpu2 σ))
                = Some (Bufs2 o2 og2 (inp_gpu2 σ'))
  end.

Section Footprint2.
Context {X Y : Type}.
Variables (c : cl_conf) (inp : list (list X)).
Variable usfft2d_adj : Z -> list (list X) -> list (list Y).
Hypothesis deth_pos : 0 < deth c.
Hypothesis dethc_pos : 0 < dethc c.
Hypothesis inp_ok : matrix (ntheta c) (deth c) inp.
Hypothesis kernel_shape : forall ch slot,
  matrix (2 * ntheta c) (dethc c) slot ->
  matrix (n1 c) (dethc c) (usfft2d_adj ch slot).

Lemma compute2_footprint (k : Z) (σ : bufs2 X Y) :
  1 <= k <= nchunk (deth c / 2 + 1) (dethc c) -> shaped2 c σ ->
  exists σ', usfft2d_compute usfft2d_adj (k - 1) ((k - 1) mod 2) σ = Some σ'
    /\ shaped2 c σ' /\ footprint2 c inp usfft2d_adj Stream2 k σ σ'.
Proof.
  intros Hk (Hout & Hoglen & Hogall & Higlen & Higall).
  assert (0 <= (k - 1) mod 2 < 2) as Hm by divlia.
  destruct (lookup_lt_is_Some_2 (inp_gpu2 σ) (Z.to_nat ((k - 1) mod 2)) ltac:(lia))
    as [src Hsrc].
  pose proof (Forall_lookup_1 _ _ _ _ Higall Hsrc) as Hmat. cbv beta in Hmat.
  unfold usfft2d_compute.
  rewrite (py_index_in_range (inp_gpu2 σ)), Hsrc by lia. cbn.
  rewrite (py_set_index_in_range (out_gpu2 σ)) by lia. cbn.
  eexists. split; [reflexivity|]. split.
  - unfold shaped2. cbn [out_host2 out_gpu2 inp_gpu2].
    split; [exact Hout|]. split; [rewrite length_insert; exact Hoglen|].
    split; [apply Forall_insert; [exact Hogall|apply kernel_shape; exact Hmat]|].
    split; assumption.
  - cbn. split; [reflexivity|]. split; [reflexivity|]. exists src. auto.
Qed.

Lemma drain2_footprint (k : Z) (σ : bufs2 X Y) :
  2 <= k <= nchunk (deth c / 2 + 1) (dethc c) + 1 -> shaped2 c σ ->
  exists σ',
    drain2 ((k - 2) mod 2) ((k - 2) * dethc c)
      (Z.min (deth c / 2 + 1) ((k - 1) * dethc c))
      (Z.min (deth c / 2 + 1) ((k - 1) * dethc c) - (k - 2) * dethc c) σ = Some σ'
    /\ shaped2 c σ' /\ footprint2 c inp usfft2d_adj Stream3 k σ σ'.
Proof.
  intros Hk (Hout & Hoglen & Hogall & Higlen & Higall).
  assert (0 <= (k - 2) mod 2 < 2) as Hm by divlia.
  destruct (lookup_lt_is_Some_2 (out_gpu2 σ) (Z.to_nat ((k - 2) mod 2)) ltac:(lia))
    as [dev Hdev].
  pose proof (Forall_lookup_1 _ _ _ _ Hogall Hdev) as Hmat. cbv beta in Hmat.
  destruct (chunk2_bounds c deth_pos dethc_pos (k - 2) ltac:(lia))
    as (Hst & Hen & Hs & Hhalf).
  replace (k - 2 + 1) with (k - 1) in * by lia.
  set (st := (k - 2) * dethc c) in *.
  set (en := Z.min (deth c / 2 + 1) ((k - 1) * dethc c)) in *.
  destruct (drain2_rows c dethc_pos ((k - 2) mod 2) st en (Z.to_nat (n1 c)) 0 σ σ dev)
    as (σ' & Hr & Hog' & Hig' & Hlen' & Hrows'); try assumption; try lia;
    try reflexivity.
  { destruct Hout. lia. }
  { intros r row d Hrow Hd. rewrite Hrow.
    destruct (Z.ltb_spec (Z.of_nat r) 0); [lia|reflexivity]. }
  assert (out_host2 σ' = zip_with (drained_row st en) (out_host2 σ) dev) as Hzip.
  { apply list_eq. intros r. rewrite lookup_zip_with.
    destruct (out_host2 σ !! r) as [row|] eqn:Hrow; cbn.
    - destruct (lookup_lt_is_Some_2 dev r) as [d Hd].
      { apply lookup_lt_Some in Hrow. destruct Hmat as [Hl _].
        destruct Hout as [Hl' _]. lia. }
      rewrite Hd. cbn. rewrite (Hrows' r row d Hrow Hd).
      apply lookup_lt_Some in Hrow. destruct Hout as [Hl _].
      destruct (Z.ltb_spec (Z.of_nat r) (0 + Z.of_nat (Z.to_nat (n1 c))));
        [reflexivity|lia].
    - apply lookup_ge_None. rewrite Hlen'. apply lookup_ge_None. exact Hrow. }
  exists σ'. split.
  { unfold drain2, range. rewrite (proj1 Hout).
    rewrite Z2Nat.id in Hr by (destruct Hout; lia). exact Hr. }
  split.
  - unfold shaped2. rewrite Hog', Hig'.
    split; [|repeat split; assumption].
    split; [destruct Hout; lia|].
    rewrite Hzip. apply Forall_lookup_2. intros r row' Hrow'.
    apply lookup_zip_with_Some in Hrow' as (row & d & -> & Hrow & Hd).
    pose proof (Forall_lookup_1 _ _ _ _ (proj2 Hout) Hrow) as Hrl. cbv beta in Hrl.
    pose proof (Forall_lookup_1 _ _ _ _ (proj2 Hmat) Hd) as Hdl. cbv beta in Hdl.
    rewrite drained_row_length by lia. exact Hrl.
  - cbn. split; [exact Hog'|]. split; [exact Hig'|]. exists dev. auto.
Qed.

Lemma fill2_footprint (k : Z) (σ : bufs2 X Y) :
  0 <= k < nchunk (deth c / 2 + 1) (dethc c) -> shaped2 c σ ->
  exists σ',
    fill2 c inp k (k mod 2) (k * dethc c)
      (Z.min (deth c / 2 + 1) ((k + 1) * dethc c))
      (Z.min (deth c / 2 + 1) ((k + 1) * dethc c) - k * dethc c) σ = Some σ'
    /\ shaped2 c σ' /\ footprint2 c inp usfft2d_adj Stream1 k σ σ'.
Proof.
  intros Hk (Hout & Hoglen & Hogall & Higlen & Higall).
  assert (0 <= k mod 2 < 2) as Hm by divlia.
  destruct (lookup_lt_is_Some_2 (inp_gpu2 σ) (Z.to_nat (k mod 2)) ltac:(lia))
    as [dev Hdev].
  pose proof (Forall_lookup_1 _ _ _ _ Higall Hdev) as Hmat. cbv beta in Hmat.
  assert (0 <= ntheta c) as Hnt by (destruct inp_ok; lia).
  destruct (fill2_rows c inp deth_pos dethc_pos inp_ok k (Z.to_nat (ntheta c)) 0 σ dev)
    as (σ' & dev' & Hr & Ho & Hog & Hig & Hmat' & Hrows); try assumption; try lia.
  { intros j src Hj. lia. }
  assert (fill2 c inp k (k mod 2) (k * dethc c)
            (Z.min (deth c / 2 + 1) ((k + 1) * dethc c))
            (Z.min (deth c / 2 + 1) ((k + 1) * dethc c) - k * dethc c) σ = Some σ')
    as Hrun.
  { unfold fill2, range. rewrite (proj1 inp_ok).
    rewrite Z2Nat.id in Hr by lia. exact Hr. }
  exists σ'. split; [exact Hrun|]. split.
  - unfold shaped2. rewrite Ho, Hog, Hig. split; [exact Hout|].
    split; [exact Hoglen|]. split; [exact Hogall|].
    split; [rewrite length_insert; exact Higlen|].
    apply Forall_insert; assumption.
  - cbn. split; [exact Ho|]. split; [exact Hog|]. exists dev, dev'.
    split; [exact Hdev|]. split; [exact Hig|]. split.
    + rewrite Z2Nat.id in Hrows by lia. exact Hrows.
    + destruct σ as [o og ig]. cbn [inp_gpu2] in *.
      apply (fill2_frame c inp _ _ _ _ _ _ _ _ _ Hrun).
Qed.

Lemma step_footprint2 (k : Z) (q : stream) (w : work) (σ : bufs2 X Y) :
  In (Submit q w) (iter_step (deth c / 2 + 1) (dethc c) k) ->
  0 <= k < nchunk (deth c / 2 + 1) (dethc c) + 2 -> shaped2 c σ ->
  exists σ', usfft2d_exec c inp usfft2d_adj w σ = Some σ'
    /\ shaped2 c σ' /\ footprint2 c inp usfft2d_adj q k σ σ'.
Proof.
  intros Hin Hk Hsh. apply iter_step_submits in Hin.
  destruct Hin as [(-> & Hr & ->)|[(-> & Hr & ->)|(-> & Hr & ->)]];
    cbn [usfft2d_exec].
  - apply compute2_footprint; [lia|exact Hsh].
  - apply drain2_footprint; [lia|exact Hsh].
  - apply fill2_footprint; [lia|exact Hsh].
Qed.
End Footprint2.

Section Commute2.
Context {X Y : Type}.
Variables (c : cl_conf) (inp : list (list X)).
Variable usfft2d_adj : Z -> list (list X) -> list (list Y).
Hypothesis deth_pos : 0 < deth c.
Hypothesis dethc_pos : 0 < dethc c.
Hypothesis inp_ok : matrix (ntheta c) (deth c) inp.
Hypothesis kernel_shape : forall ch slot,
  matrix (2 * ntheta c) (dethc c) slot ->
  matrix (n1 c) (dethc c) (usfft2d_adj ch slot).

Lemma bufs2_eq (σ τ : bufs2 X Y) :
  out_host2 σ = out_host2 τ -> out_gpu2 σ = out_gpu2 τ ->
  inp_gpu2 σ = inp_gpu2 τ -> σ = τ.
Proof. destruct σ, τ. cbn. intros -> -> ->. reflexivity. Qed.

Lemma footprint2_commute_ordered (q1 q2 : stream) (k : Z)
    (σ σ1 σ12 σ2 σ21 : bufs2 X Y) :
  match q1, q2 with
  | Stream2, Stream3 | Stream2, Stream1 | Stream3, Stream1 => True
  | _, _ => False
  end ->
  footprint2 c inp usfft2d_adj q1 k σ σ1 ->
  footprint2 c inp usfft2d_adj q2 k σ1 σ12 ->
  footprint2 c inp usfft2d_adj q2 k σ σ2 ->
  footprint2 c inp usfft2d_adj q1 k σ2 σ21 ->
  σ12 = σ21.
Proof.
  assert (Z.to_nat ((k - 1) mod 2) <> Z.to_nat ((k - 2) mod 2)) as Hab by divlia.
  assert (Z.to_nat ((k - 1) mod 2) <> Z.to_nat (k mod 2)) as Haa by divlia.
  destruct q1, q2; intros Hq; try destruct Hq; cbn [footprint2].
  - (* compute, fill *)
    intros (Ho1 & Hig1 & src & Hsrc & Hog1)
           (Ho12 & Hog12 & dev & dev' & Hdev & Hig12 & _ & Hfr12)
           (Ho2 & Hog2 & dev2 & dev2' & Hdev2 & Hig2 & _ & Hfr2)
           (Ho21 & Hig21 & src' & Hsrc' & Hog21).
    rewrite Hig2, list_lookup_insert_ne in Hsrc' by congruence.
    assert (src' = src) as -> by congruence.
    assert (inp_gpu2 σ12 = inp_gpu2 σ2) as Hig.
    { specialize (Hfr12 [] []). specialize (Hfr2 [] []).
      rewrite Hig1 in Hfr12. congruence. }
    apply bufs2_eq; congruence.
  - (* compute, drain *)
    intros (Ho1 & Hig1 & src & Hsrc & Hog1) (Hog12 & Hig12 & d & Hd & Ho12)
           (Hog2 & Hig2 & d' & Hd' & Ho2) (Ho21 & Hig21 & src' & Hsrc' & Hog21).
    rewrite Hog1, list_lookup_insert_ne in Hd by exact Hab.
    rewrite Hig2 in Hsrc'.
    assert (d' = d) as -> by congruence.
    assert (src' = src) as -> by congruence.
    apply bufs2_eq; congruence.
  - (* drain, fill *)
    intros (Hog1 & Hig1 & d & Hd & Ho1)
           (Ho12 & Hog12 & dev & dev' & Hdev & Hig12 & _ & Hfr12)
           (Ho2 & Hog2 & dev2 & dev2' & Hdev2 & Hig2 & _ & Hfr2)
           (Hog21 & Hig21 & d' & Hd' & Ho21).
    rewrite Hog2 in Hd'.
    assert (d' = d) as -> by congruence.
    assert (inp_gpu2 σ12 = inp_gpu2 σ2) as Hig.
    { specialize (Hfr12 [] []). specialize (Hfr2 [] []).
      rewrite Hig1 in Hfr12. congruence. }
    apply bufs2_eq; congruence.
Qed.

Lemma step_commute2 (k : Z) (q1 q2 : stream) (w1 w2 : work) (σ : bufs2 X Y) :
  In (Submit q1 w1) (iter_step (deth c / 2 + 1) (dethc c) k) ->
  In (Submit q2 w2) (iter_step (deth c / 2 + 1) (dethc c) k) ->
  q1 <> q2 -> 0 <= k < nchunk (deth c / 2 + 1) (dethc c) + 2 -> shaped2 c σ ->
  exists τ,
    usfft2d_exec c inp usfft2d_adj w1 σ ≫= usfft2d_exec c inp usfft2d_adj w2 = Some τ
    /\ usfft2d_exec c inp usfft2d_adj w2 σ ≫= usfft2d_exec c inp usfft2d_adj w1 = Some τ.
Proof.
  intros H1 H2 Hq Hk Hsh.
  pose proof (step_footprint2 c inp usfft2d_adj deth_pos dethc_pos inp_ok kernel_shape k)
    as SF.
  destruct (SF q1 w1 σ H1 Hk Hsh) as (σ1 & E1 & Hsh1 & F1).
  destruct (SF q2 w2 σ1 H2 Hk Hsh1) as (σ12 & E12 & _ & F12).
  destruct (SF q2 w2 σ H2 Hk Hsh) as (σ2 & E2 & Hsh2 & F2).
  destruct (SF q1 w1 σ2 H1 Hk Hsh2) as (σ21 & E21 & _ & F21).
  exists σ12. rewrite E1, E2. cbn. rewrite E12, E21. split; [reflexivity|].
  f_equal.
  destruct q1, q2; try congruence;
    first [ symmetry;
            apply (fun H => footprint2_commute_ordered _ _ k σ σ1 σ12 σ2 σ21
                              H F1 F12 F2 F21); exact I
          | apply (fun H => footprint2_commute_ordered _ _ k σ σ2 σ21 σ1 σ12
                              H F2 F21 F1 F12); exact I ].
Qed.
End Commute2.

(** ** Independence of the work submitted in one step *)

(** The work submitted in step [k] of a schedule, run from any state of the
    configured shape: each piece runs, keeps the shape and has the footprint
    [fp] of its stream, and two pieces submitted on different streams give
    the same state in both orders. *)
Definition step_independent {St : Type} (exec : work -> St -> option St)
    (shape : St -> Prop) (fp : stream -> Z -> St -> St -> Prop)
    (sched : list (list event)) : Prop :=
  forall (k : Z) (step : list event) (σ : St),
    0 <= k -> sched !! Z.to_nat k = Some step -> shape σ ->
    (forall q w, In (Submit q w) step ->
       exists σ', exec w σ = Some σ' /\ shape σ' /\ fp q k σ σ')
    /\ (forall q1 w1 q2 w2,
          In (Submit q1 w1) step -> In (Submit q2 w2) step -> q1 <> q2 ->
          exists τ, exec w1 σ ≫= exec w2 = Some τ
                    /\ exec w2 σ ≫= exec w1 = Some τ).

Lemma schedule_lookup_step (c : cl_conf) (it : iterator) (k : Z) step :
  0 <= k -> schedule c it !! Z.to_nat k = Some step ->
  k < nchunk (axis_length c it) (chunk_size c it) + 2
  /\ step = iter_step (axis_length c it) (chunk_size c it) k.
Proof.
  intros Hk Hs. unfold schedule in Hs.
  pose proof (lookup_lt_Some _ _ _ Hs) as Hlt.
  rewrite iter_schedule_length in Hlt.
  assert (k < nchunk (axis_length c it) (chunk_size c it) + 2) as Hk' by lia.
  split; [exact Hk'|].
  rewrite iter_schedule_lookup in Hs by lia. congruence.
Qed.

(** C3. In every step [k] of every chunk iterator, run on buffers of the
    configured shapes, each piece of submitted work succeeds and touches
    the device arrays as follows.  The compute (stream 2) reads slot
    [(k-1)%2] of the device source and replaces slot [(k-1)%2] of the device
    destination by the transform of what it read (in [fft2_chunks] it also
    replaces that source slot by its filtered value); it changes no other slot
    and not the host destination.  The drain (stream 3) reads slot [(k-2)%2] of
    the device destination and changes only the host destination.  The fill
    (stream 1) replaces slot [k%2] of the device source and changes nothing
    else.  The slot [(k-1)%2] differs from [(k-2)%2] and from [k%2], and any
    two pieces of work that the step submits on different streams commute:
    run in either order from the same state they succeed with the same
    final state. *)
Theorem slots_independent (c : cl_conf) :
  0 < nz c -> 0 < ncz c -> 0 < ncproj c ->
  (forall k : Z, (k - 1) mod 2 <> (k - 2) mod 2 /\ (k - 1) mod 2 <> k mod 2)
  /\ (forall (A B : Type) (inp : list A) (K : list A -> list B),
        Z.of_nat (length inp) = n1 c -> (forall l, length (K l) = length l) ->
        step_independent (usfft1d_exec inp K) (shaped (n1 c) (n1c c))
          (footprint inp (n1 c) (n1c c) K (fun l => l))
          (schedule c Usfft1d))
  /\ (forall (X Y : Type) (inp : list (list X))
             (usfft2d_adj : Z -> list (list X) -> list (list Y)),
        matrix (ntheta c) (deth c) inp ->
        (forall ch slot, matrix (2 * ntheta c) (dethc c) slot ->
                         matrix (n1 c) (dethc c) (usfft2d_adj ch slot)) ->
        step_independent (usfft2d_exec c inp usfft2d_adj) (shaped2 c)
          (footprint2 c inp usfft2d_adj)
          (schedule c Usfft2d))
  /\ (forall (A B : Type) (inp : list A)
             (filter_center : list A -> option (list A)) (F : list A -> list A)
             (fft2d_fwd : list A -> list B),
        Z.of_nat (length inp) = ntheta c ->
        (forall l, filter_center l = Some (F l)) ->
        (forall l, length (F l) = length l) ->
        (forall l, length (fft2d_fwd l) = length l) ->
        step_independent (fft2_exec inp filter_center fft2d_fwd)
          (shaped (ntheta c) (nthetac c))
          (footprint inp (ntheta c) (nthetac c) (fun l => fft2d_fwd (F l)) F)
          (schedule c Fft2)).
Proof.
  intros Hz Hcz Hcp. split; [|split; [|split]].
  - intros k. divlia.
  - intros A B inp K Hinp HK k step σ Hk Hs Hsh.
    destruct (schedule_lookup_step c Usfft1d k step Hk Hs) as (Hk' & ->).
    cbn [axis_length chunk_size] in *.
    assert (0 < n1c c) as HC by (unfold n1c; lia).
    split.
    + intros q w Hin. rewrite usfft1d_exec_pipe.
      apply (step_footprint inp (n1 c) (n1c c) (usfft1d_compute K) K (fun l => l)
               Hinp HC HK (fun l => eq_refl) (usfft1d_compute_ok K) k q w σ Hin);
        [lia|exact Hsh].
    + intros q1 w1 q2 w2 H1 H2 Hq. rewrite !usfft1d_exec_pipe.
      destruct (step_commute inp (n1 c) (n1c c) (usfft1d_compute K) K (fun l => l)
                  Hinp HC HK (fun l => eq_refl) (usfft1d_compute_ok K)
                  k q1 q2 w1 w2 σ H1 H2 Hq ltac:(lia) Hsh) as (τ & E1 & E2).
      exists τ. split.
      * rewrite <- E1. destruct (pipe_exec inp (usfft1d_compute K) w1 σ); cbn;
          [apply usfft1d_exec_pipe|reflexivity].
      * rewrite <- E2. destruct (pipe_exec inp (usfft1d_compute K) w2 σ); cbn;
          [apply usfft1d_exec_pipe|reflexivity].
  - intros X Y inp K2 Hinp HK k step σ Hk Hs Hsh.
    destruct (schedule_lookup_step c Usfft2d k step Hk Hs) as (Hk' & ->).
    cbn [axis_length chunk_size] in *.
    assert (0 < deth c) as Hd by (unfold deth; lia).
    assert (0 < dethc c) as Hdc by (unfold dethc; lia).
    split.
    + intros q w Hin.
      apply (step_footprint2 c inp K2 Hd Hdc Hinp HK k q w σ Hin);
        [lia|exact Hsh].
    + intros q1 w1 q2 w2 H1 H2 Hq.
      apply (step_commute2 c inp K2 Hd Hdc Hinp HK k q1 q2 w1 w2 σ H1 H2 Hq);
        [lia|exact Hsh].
  - intros A B inp fc F fwd Hinp Hfc HF Hfwd k step σ Hk Hs Hsh.
    destruct (schedule_lookup_step c Fft2 k step Hk Hs) as (Hk' & ->).
    cbn [axis_length chunk_size] in *.
    assert (0 < nthetac c) as HC by (unfold nthetac; lia).
    assert (forall l, length (fwd (F l)) = length l) as HT
      by (intros l; rewrite Hfwd; apply HF).
    pose proof (fun slot σ src => fft2_compute_ok fc F fwd slot σ src Hfc) as Hco.
    split.
    + intros q w Hin. rewrite fft2_exec_pipe.
      apply (step_footprint inp (ntheta c) (nthetac c) (fft2_compute fc fwd)
               (fun l => fwd (F l)) F Hinp HC HT HF Hco k q w σ Hin);
        [lia|exact Hsh].
    + intros q1 w1 q2 w2 H1 H2 Hq. rewrite !fft2_exec_pipe.
      destruct (step_commute inp (ntheta c) (nthetac c) (fft2_compute fc fwd)
                  (fun l => fwd (F l)) F Hinp HC HT HF Hco
                  k q1 q2 w1 w2 σ H1 H2 Hq ltac:(lia) Hsh) as (τ & E1 & E2).
      exists τ. split.
      * rewrite <- E1. destruct (pipe_exec inp (fft2_compute fc fwd) w1 σ); cbn;
          [apply fft2_exec_pipe|reflexivity].
      * rewrite <- E2. destruct (pipe_exec inp (fft2_compute fc fwd) w2 σ); cbn;
          [apply fft2_exec_pipe|reflexivity].
Qed.

Lemma slots_independent_witness :
  let c := {| rh := 1; n := 5; nz := 5; nproj := 3; ncproj := 2; ncz := 2 |} in
  let inp := [1; 2; 3; 4; 5] in
  let K := map (Z.mul 2) in
  let σ := Bufs [0; 0; 0; 0; 0] [[2; 4]; [0; 0]] [[1; 2]; [3; 4]] in
  (exists σ', usfft1d_exec inp K (Compute 1 1) σ = Some σ'
     /\ shaped (n1 c) (n1c c) σ'
     /\ footprint inp (n1 c) (n1c c) K (fun l => l) Stream2 2 σ σ')
  /\ (exists τ,
        usfft1d_exec inp K (Compute 1 1) σ ≫= usfft1d_exec inp K (Fill 2 0 4 5 1)
        = Some τ
        /\ usfft1d_exec inp K (Fill 2 0 4 5 1) σ ≫= usfft1d_exec inp K (Compute 1 1)
           = Some τ)
  /\ (exists τ,
        usfft1d_exec inp K (Drain 0 0 0 2 2) σ ≫= usfft1d_exec inp K (Fill 2 0 4 5 1)
        = Some τ
        /\ usfft1d_exec inp K (Fill 2 0 4 5 1) σ ≫= usfft1d_exec inp K (Drain 0 0 0 2 2)
           = Some τ).
Proof.
  intros c inp K σ.
  destruct (slots_independent c ltac:(cbn; lia) ltac:(cbn; lia) ltac:(cbn; lia))
    as (_ & H1 & _ & _).
  assert (shaped 5 2 σ) as Hsh.
  { unfold shaped, slots_ok. cbn. repeat split; repeat constructor. }
  destruct (H1 Z Z inp K eq_refl (fun l => length_map _ l) 2
              [Submit Stream2 (Compute 1 1); Submit Stream3 (Drain 0 0 0 2 2);
               Submit Stream1 (Fill 2 0 4 5 1); Synchronize Stream1;
               Synchronize Stream2; Synchronize Stream3]
              σ ltac:(lia) eq_refl Hsh) as (Hfp & Hco).
  split; [|split].
  - apply Hfp. left. reflexivity.
  - apply (Hco Stream2 (Compute 1 1) Stream1 (Fill 2 0 4 5 1)).
    + left. reflexivity.
    + right. right. left. reflexivity.
    + discriminate.
  - apply (Hco Stream3 (Drain 0 0 0 2 2) Stream1 (Fill 2 0 4 5 1)).
    + right. left. reflexivity.
    + right. right. left. reflexivity.
    + discriminate.
Defined.

(** ** The chunk iterators against the whole-array transforms *)



(** ** Slice bounds and runs that cannot fail *)

Section ShapeRuns.
Context {St : Type} (exec : work -> St -> option St) (shape : St -> Prop).


End ShapeRuns.


